(** * Sigma protocols: AND composition, challenge handling and message codec

    A shallow embedding of the Sigma-protocol core of libscapi
    (SigmaProtocol.hpp, SigmaProtocolDlog.hpp, SigmaProtocolDH.hpp and
    SigmaProtocolAnd.cpp) and the properties its specification states
    about it.

    Conventions of the embedding.
    - A C++ call either returns, throws, or has undefined behaviour (a null
      pointer dereferenced, a vector indexed out of range, a C cast to a
      class the object does not have): [outcome].
    - A raw pointer argument is an [option]; [None] is the null pointer.
      Elements of a [vector<shared_ptr<..>>] are taken to be non-null.
    - [int] is a 32-bit two's complement integer carried in [Z]; the
      conversion of a [size_t] to [int] is written out as [to_int].
    - Objects that are only read (common inputs, messages) are values;
      objects that are mutated are threaded explicitly. *)

From Stdlib Require Import ZArith Lia String Ascii DecimalString DecimalZ.
From Stdlib Require Import Strings.Byte.
From stdpp Require Import base option list strings.

Set Warnings "-register-all".
Local Open Scope Z_scope.

(** ** C++ control flow *)

(** The exception classes the sources throw. *)
Inductive exception : Type :=
| invalid_argument (what : string)
| CheatAttemptException (what : string).

(** [throw x;] throws the object, [throw new x;] throws a pointer to it. *)
Inductive thrown : Type :=
| by_value (x : exception)
| by_pointer (x : exception).

Inductive outcome (A : Type) : Type :=
| Ret (a : A)
| Throw (x : thrown)
| Undef.
Arguments Ret {A} a.
Arguments Throw {A} x.
Arguments Undef {A}.

#[global] Instance outcome_ret : MRet outcome := @Ret.
#[global] Instance outcome_bind : MBind outcome := fun A B f m =>
  match m with
  | Ret a => f a
  | Throw x => Throw x
  | Undef => Undef
  end.

(** A handler [catch (const invalid_argument&)] (or one for its bases
    [logic_error] and [exception], as in mainSigma) takes an
    [invalid_argument] object; it does not take a pointer. *)
Definition catch_invalid_argument (x : thrown) : bool :=
  match x with
  | by_value (invalid_argument _) => true
  | _ => false
  end.


(** [!p] for a pointer [p]. *)
Definition is_null {A} (p : option A) : bool :=
  match p with
  | None => true
  | Some _ => false
  end.

(** [int] and the conversion [int n = v.size()]. *)
Definition INT_MAX : Z := 2147483647.
Definition to_int (n : Z) : Z := (n + 2 ^ 31) mod 2 ^ 32 - 2 ^ 31.
Definition size {A} (v : list A) : Z := Z.of_nat (length v).

(** Two vectors walked together, slot by slot: [each] collects what [f]
    makes of every pair and fails when [f] fails or the vectors differ in
    size; [every] tests every pair. *)
Section SlotBySlot.
Context {A B C : Type} (f : A -> B -> option C) (p : A -> B -> bool).

Fixpoint each (l : list A) (k : list B) : option (list C) :=
  match l, k with
  | [], [] => Some []
  | a :: l', b :: k' => c ← f a b; rest ← each l' k'; Some (c :: rest)
  | _, _ => None
  end.

Fixpoint every (l : list A) (k : list B) : bool :=
  match l, k with
  | [], [] => true
  | a :: l', b :: k' => p a b && every l' k'
  | _, _ => false
  end.

End SlotBySlot.

(** [v.push_back(x)]. *)
Definition push_back {A} (v : list A) (x : A) : list A := v ++ [x].

(** The indices visited by [for (int i = 0; i < len; i++)]. *)
Definition indices (len : Z) : list nat := seq 0 (Z.to_nat len).

(** ** biginteger and its text form

    [biginteger] is the multiprecision integer of boost. [z.str()] prints
    the signed decimal numeral of [z]. [biginteger(s)] reads a numeral: an
    optional minus sign, then decimal digits, most significant first. [None]
    stands for a string the reader refuses and for the forms this model
    does not cover (a radix prefix [0x] or [0], an explicit plus sign). *)
Definition biginteger_str (z : Z) : string :=
  NilZero.string_of_int (Z.to_int z).

Definition digit_value (c : ascii) : option Z :=
  let n := Z.of_N (N_of_ascii c) - 48 in
  if (0 <=? n) && (n <=? 9) then Some n else None.

Fixpoint read_digits (s : string) (acc : Z) : option Z :=
  match s with
  | EmptyString => Some acc
  | String c s' => d ← digit_value c; read_digits s' (10 * acc + d)
  end.

Definition read_unsigned (s : string) : option Z :=
  match s with
  | EmptyString => None
  | String "0" (String _ _) => None
  | _ => read_digits s 0
  end.

Definition biginteger_of_string (s : string) : option Z :=
  match s with
  | String "-" s' => Z.opp <$> read_unsigned s'
  | _ => read_unsigned s
  end.

(** ** External collaborators

    primitives/Dlog.hpp and infra/Common.hpp are not part of the sources at
    hand; what the Sigma classes use of them is taken as an interface. *)
Class Group : Type := {
  DlogGroup : Type;
  GroupElement : Type;
  GroupElementSendableData : Type;
  (** [GroupElementSendableData::toString] *)
  ge_toString : GroupElementSendableData -> string;
  (** [GroupElementSendableData::initFromString], on the object it mutates *)
  ge_initFromString : GroupElementSendableData -> string -> option GroupElementSendableData
}.

(** The text of an element, read back, is the element (the specification
    asks of the group a reversible encoding). *)
Class GroupLaws `{Group} : Prop := {
  ge_initFromString_toString :
    forall this x, ge_initFromString this (ge_toString x) = Some x
}.

Class Randomness : Type := {
  mt19937 : Type;
  get_seeded_random : mt19937;
  (** [gen_random_bytes_vector(v, len, random)]: the bytes put in [v] and the
      engine afterwards *)
  gen_random_bytes_vector : Z -> mt19937 -> list byte * mt19937
}.

(** [gen_random_bytes_vector] fills the vector with [len] bytes. *)
Class RandomnessLaws `{Randomness} : Prop := {
  gen_random_bytes_vector_size :
    forall len random, length (gen_random_bytes_vector len random).1 = Z.to_nat len
}.

(** ** Inputs (SigmaProtocolDlog.hpp, SigmaProtocolDH.hpp, SigmaProtocolAnd.cpp) *)

Section Inputs.
Context `{Group}.

Inductive SigmaCommonInput : Type :=
| SigmaDlogCommonInput (h : GroupElement)
| SigmaDHCommonInput (h u v : GroupElement)
| SigmaANDCommonInput (sigmaInputs : list SigmaCommonInput).

(** The constructors of the Dlog and DH prover inputs build their common
    input from [h] (and [u], [v]) and keep it in [params];
    [getCommonInput] returns [params]. *)
Inductive SigmaProverInput : Type :=
| SigmaDlogProverInput (h : GroupElement) (w : Z)
| SigmaDHProverInput (h u v : GroupElement) (w : Z)
| SigmaANDProverInput (sigmaInputs : list SigmaProverInput).

(** [SigmaProverInput::getCommonInput], with the loop of
    [SigmaANDProverInput::getCommonInput] over [sigmaInputs]. *)
Fixpoint getCommonInput (input : SigmaProverInput) : SigmaCommonInput :=
  match input with
  | SigmaDlogProverInput h _ => SigmaDlogCommonInput h
  | SigmaDHProverInput h u v _ => SigmaDHCommonInput h u v
  | SigmaANDProverInput sigmaInputs =>
      let paramsArr :=
        fold_left (fun paramsArr sigmaInput =>
                     push_back paramsArr (getCommonInput sigmaInput))
                  sigmaInputs [] in
      SigmaANDCommonInput paramsArr
  end.

End Inputs.

(** ** Messages (SigmaProtocol.hpp, SigmaProtocolDH.hpp) *)

(** [s] cut at its first [sep]: what is before it and what is after it. *)
Fixpoint split_first (sep : ascii) (s : string) : option (string * string) :=
  match s with
  | EmptyString => None
  | String c s' =>
      if Ascii.eqb c sep then Some (EmptyString, s')
      else '(before, after) ← split_first sep s'; Some (String c before, after)
  end.

(** [sep] does not occur in [s]. *)
Fixpoint free_of (sep : ascii) (s : string) : bool :=
  match s with
  | EmptyString => true
  | String c s' => negb (Ascii.eqb c sep) && free_of sep s'
  end.

(** Modelled from the spec: the wire form of a [SigmaMultipleMsg] is that of
    [SigmaMultipleMsg::toString] and [SigmaMultipleMsg::initFromString],
    defined in SigmaProtocol.cpp, which is not among the sources at hand.
    The spec has the sub-messages concatenated in order, each
    length-prefixed and tagged, so that the receiver decodes them
    unambiguously; the layout itself is left open here: [frame] puts the
    encoded sub-messages on the wire and [unframe] takes them apart. *)
Class Framing : Type := {
  frame : list string -> string;
  unframe : string -> option (list string)
}.

(** What is framed is taken apart as it was. *)
Class FramingLaws `{Framing} : Prop := {
  unframe_frame : forall parts, unframe (frame parts) = Some parts
}.

Section Messages.
Context `{Group} `{Framing}.

Inductive SigmaProtocolMsg : Type :=
| SigmaGroupElementMsg (element : GroupElementSendableData)
| SigmaBIMsg (z : Z)
| SigmaDHMsg (a b : GroupElementSendableData)
| SigmaMultipleMsg (messages : list SigmaProtocolMsg).

(** [SigmaBIMsg()], the message the verifier allocates before it receives. *)
Definition SigmaBIMsg_default : SigmaProtocolMsg := SigmaBIMsg (-100).

(** [dynamic_cast<SigmaMultipleMsg*>(p)]: null for a null pointer and for
    an object of another class. *)
Definition dynamic_cast_SigmaMultipleMsg (p : option SigmaProtocolMsg)
  : option (list SigmaProtocolMsg) :=
  match p with
  | Some (SigmaMultipleMsg messages) => Some messages
  | _ => None
  end.

(** Modelled from the spec: [SigmaMultipleMsg::toString] is defined in
    SigmaProtocol.cpp, which is not among the sources at hand; the spec has
    the sub-messages encoded in order and framed. [toString] is that of the
    sub-messages. *)
Definition SigmaMultipleMsg_toString (toString : SigmaProtocolMsg -> string)
  (messages : list SigmaProtocolMsg) : string :=
  frame (toString <$> messages).

(** [toString] of the four message classes; those of [SigmaGroupElementMsg],
    [SigmaBIMsg] and [SigmaDHMsg] are defined in the headers. *)
Fixpoint toString (m : SigmaProtocolMsg) : string :=
  match m with
  | SigmaGroupElementMsg element => ge_toString element
  | SigmaBIMsg z => biginteger_str z
  | SigmaDHMsg a b => ge_toString a +:+ ":" +:+ ge_toString b
  | SigmaMultipleMsg messages => SigmaMultipleMsg_toString toString messages
  end.

(** Modelled from the spec: [SigmaDHMsg::initFromString] is defined in
    SigmaProtocolDH.cpp, which is not among the sources at hand; the spec
    has the text split on the first [:]. The two parts are handed to the
    two elements of the message. *)
Definition SigmaDHMsg_initFromString (a b : GroupElementSendableData) (s : string)
  : option (GroupElementSendableData * GroupElementSendableData) :=
  '(sa, sb) ← split_first ":" s;
  a' ← ge_initFromString a sa;
  b' ← ge_initFromString b sb;
  Some (a', b').

(** Modelled from the spec: [SigmaMultipleMsg::initFromString] is defined in
    SigmaProtocol.cpp, which is not among the sources at hand; the spec has
    the receiver, knowing the class expected in every slot, take the framed
    sub-messages apart. The parts [unframe] yields are handed to the
    sub-messages in order, by [initFromString]. *)
Definition SigmaMultipleMsg_initFromString
  (initFromString : SigmaProtocolMsg -> string -> option SigmaProtocolMsg)
  (messages : list SigmaProtocolMsg) (s : string) : option (list SigmaProtocolMsg) :=
  parts ← unframe s;
  each initFromString messages parts.

(** [initFromString] of the four message classes, on the message object it
    fills; those of [SigmaGroupElementMsg] and [SigmaBIMsg] are defined in
    SigmaProtocol.hpp. *)
Fixpoint initFromString (this : SigmaProtocolMsg) (s : string)
  : option SigmaProtocolMsg :=
  match this with
  | SigmaGroupElementMsg element =>
      SigmaGroupElementMsg <$> ge_initFromString element s
  | SigmaBIMsg _ => SigmaBIMsg <$> biginteger_of_string s
  | SigmaDHMsg a b =>
      '(a', b') ← SigmaDHMsg_initFromString a b s; Some (SigmaDHMsg a' b')
  | SigmaMultipleMsg messages =>
      SigmaMultipleMsg <$> SigmaMultipleMsg_initFromString initFromString messages s
  end.

(** The receiver's message object has the classes of the message sent, slot
    by slot. *)
Fixpoint same_classes (this m : SigmaProtocolMsg) : bool :=
  match this, m with
  | SigmaGroupElementMsg _, SigmaGroupElementMsg _ => true
  | SigmaBIMsg _, SigmaBIMsg _ => true
  | SigmaDHMsg _ _, SigmaDHMsg _ _ => true
  | SigmaMultipleMsg l, SigmaMultipleMsg l' => every same_classes l l'
  | _, _ => false
  end.

(** No [SigmaDHMsg] inside [m] has a [:] in the text of its first element. *)
Fixpoint colon_free (m : SigmaProtocolMsg) : bool :=
  match m with
  | SigmaDHMsg a _ => free_of ":" (ge_toString a)
  | SigmaMultipleMsg messages => forallb colon_free messages
  | _ => true
  end.

(** [SigmaSimulatorOutput] with its three getters. *)
Record SigmaSimulatorOutput : Type := {
  getA : SigmaProtocolMsg;
  getE : list byte;
  getZ : SigmaProtocolMsg
}.

End Messages.

(** ** The Dlog and DH verifier computations (SigmaProtocolDlog.hpp,
       SigmaProtocolDH.hpp)

    Their constructors, [sampleChallenge] and [verify] are defined in
    SigmaProtocolDlog.cpp and SigmaProtocolDH.cpp; the headers define the
    accessors below. *)

Module SigmaDlogVerifierComputation.
Section Members.
Context `{Group} `{Randomness}.

Record object : Type := {
  dlog : DlogGroup;
  t : Z;
  e : list byte;
  random : mt19937
}.

Definition getSoundnessParam (this : object) : Z := t this.

(** [void setChallenge(vector<byte> challenge) { e = challenge; }] *)
Definition setChallenge (challenge : list byte) (this : object) : object :=
  {| dlog := dlog this; t := t this; e := challenge; random := random this |}.

Definition getChallenge (this : object) : list byte := e this.

End Members.
End SigmaDlogVerifierComputation.

Module SigmaDHVerifierComputation.
Section Members.
Context `{Group} `{Randomness}.

Record object : Type := {
  dlog : DlogGroup;
  t : Z;
  e : list byte;
  random : mt19937
}.

Definition getSoundnessParam (this : object) : Z := t this.

(** [void setChallenge(vector<byte> challenge) override { e = challenge; }] *)
Definition setChallenge (challenge : list byte) (this : object) : object :=
  {| dlog := dlog this; t := t this; e := challenge; random := random this |}.

Definition getChallenge (this : object) : list byte := e this.

End Members.
End SigmaDHVerifierComputation.

(** The length check of the DH simulator and of the DH prover computation:
    [bool checkChallengeLength(int size) { return ((size == (t / 8)) ? true : false); }]
    with [/] the division of [int], which truncates. *)
Module SigmaDHSimulator.
Definition checkChallengeLength (t : Z) (size : Z) : bool :=
  if size =? t ÷ 8 then true else false.
End SigmaDHSimulator.

Module SigmaDHProverComputation.
Definition checkChallengeLength (t : Z) (size : Z) : bool :=
  if size =? t ÷ 8 then true else false.
End SigmaDHProverComputation.

(** ** The abstract computations (SigmaProtocol.hpp)

    An object of an abstract class is the record of what its virtual
    methods do. [World] is the state of everything the underlying objects
    own and change when they compute (their random engines, the values they
    keep between the two prover messages). *)

Module SigmaVerifierComputation.
Section Interface.
Context `{Group}.

(** A verifier computation keeps its challenge in [e]: [setChallenge]
    stores it, [getChallenge] reads it, and [verify] decides on the
    challenge stored and on what it is handed. *)
Record object : Type := {
  t : Z;
  e : list byte;
  accepts : list byte -> option SigmaCommonInput -> option SigmaProtocolMsg ->
            option SigmaProtocolMsg -> outcome bool
}.

Definition getSoundnessParam (this : object) : Z := t this.

Definition setChallenge (challenge : list byte) (this : object) : object :=
  {| t := t this; e := challenge; accepts := accepts this |}.

Definition getChallenge (this : object) : list byte := e this.

Definition verify (this : object) (input : option SigmaCommonInput)
  (a z : option SigmaProtocolMsg) : outcome bool :=
  accepts this (e this) input a z.

End Interface.
End SigmaVerifierComputation.

Module SigmaSimulator.
Section Interface.
Context `{Group} {World : Type}.

Record object : Type := {
  getSoundnessParam : Z;
  (** [simulate(input, challenge)] *)
  simulate : option SigmaCommonInput -> list byte -> World ->
             outcome SigmaSimulatorOutput * World
}.

End Interface.
Arguments object {_} World.
End SigmaSimulator.

Module SigmaProverComputation.
Section Interface.
Context `{Group} {World : Type}.

Record object : Type := {
  getSoundnessParam : Z;
  computeFirstMsg : SigmaProverInput -> World -> outcome SigmaProtocolMsg * World;
  computeSecondMsg : list byte -> World -> outcome SigmaProtocolMsg * World;
  getSimulator : SigmaSimulator.object World
}.

End Interface.
Arguments object {_} World.
End SigmaProverComputation.

(** ** AND composition (SigmaProtocolAnd.cpp)

    SigmaProtocolAnd.hpp, which declares the AND classes, is not among the
    sources at hand. The members [provers], [simulators], [verifiers],
    [len], [t] and [random] are as SigmaProtocolAnd.cpp uses them; the one
    member function the header defines and SigmaProtocolAnd.cpp calls,
    [SigmaANDSimulator::checkChallengeLength], is a parameter: the answer it
    gives for the soundness parameter [t] and the [int] it is handed. *)
Class ANDLengthCheck : Type := {
  checkChallengeLength : Z -> Z -> bool
}.

Module SigmaANDProverComputation.
Section Members.
Context `{Group} `{Framing} `{Randomness} {World : Type}.

Record object : Type := {
  provers : list (SigmaProverComputation.object World);
  len : Z;
  t : Z;
  random : mt19937
}.

(** The loop of the constructor over [provers]. *)
Fixpoint check_t (provers : list (SigmaProverComputation.object World)) (t : Z)
  : outcome () :=
  match provers with
  | [] => Ret ()
  | prover :: rest =>
      if negb (t =? SigmaProverComputation.getSoundnessParam prover)
      then Throw (by_value (invalid_argument
        "the given t does not equal to one of the t values in the underlying provers objects."))
      else check_t rest t
  end.

(** [SigmaANDProverComputation(provers, t)] *)
Definition new (provers : list (SigmaProverComputation.object World)) (t : Z)
  : outcome object :=
  check_t provers t ;;
  Ret {| provers := provers; len := to_int (size provers); t := t;
         random := get_seeded_random |}.

(** The loop of [computeSecondMsg] over [provers]. *)
Fixpoint second_messages (provers : list (SigmaProverComputation.object World))
  (challenge : list byte) (secondMessages : list SigmaProtocolMsg) (w : World)
  : outcome (list SigmaProtocolMsg) * World :=
  match provers with
  | [] => (Ret secondMessages, w)
  | prover :: rest =>
      match SigmaProverComputation.computeSecondMsg prover challenge w with
      | (Ret m, w') => second_messages rest challenge (push_back secondMessages m) w'
      | (Throw x, w') => (Throw x, w')
      | (Undef, w') => (Undef, w')
      end
  end.

Definition computeSecondMsg (this : object) (challenge : list byte) (w : World)
  : outcome SigmaProtocolMsg * World :=
  match second_messages (provers this) challenge [] w with
  | (Ret secondMessages, w') => (Ret (SigmaMultipleMsg secondMessages), w')
  | (Throw x, w') => (Throw x, w')
  | (Undef, w') => (Undef, w')
  end.

(** [checkInput(in)]: the pointer is cast with [dynamic_pointer_cast], the
    result is tested, and the number of the inputs is compared with [len].
    Returned: the prover inputs that [getInputs()] of the AND input gives. *)
Definition checkInput (this : object) (input : option SigmaProverInput)
  : outcome (list SigmaProverInput) :=
  match input with
  | Some (SigmaANDProverInput sigmaInputs) =>
      let inputLen := to_int (size sigmaInputs) in
      if negb (inputLen =? len this)
      then Throw (by_value (invalid_argument
             "number of inputs is different from number of underlying provers."))
      else Ret sigmaInputs
  | _ => Throw (by_value (invalid_argument
           "the given input must be an instance of SigmaANDProverInput"))
  end.

(** The loop [for (int i = 0; i < len; i++)] of [computeFirstMsg], over the
    indices left to visit. *)
Fixpoint first_messages (provers : list (SigmaProverComputation.object World))
  (proversInput : list SigmaProverInput) (todo : list nat)
  (firstMessages : list SigmaProtocolMsg) (w : World)
  : outcome (list SigmaProtocolMsg) * World :=
  match todo with
  | [] => (Ret firstMessages, w)
  | i :: rest =>
      match provers !! i, proversInput !! i with
      | Some prover, Some input =>
          match SigmaProverComputation.computeFirstMsg prover input w with
          | (Ret m, w') =>
              first_messages provers proversInput rest (push_back firstMessages m) w'
          | (Throw x, w') => (Throw x, w')
          | (Undef, w') => (Undef, w')
          end
      | _, _ => (Undef, w)
      end
  end.

Definition computeFirstMsg (this : object) (input : option SigmaProverInput) (w : World)
  : outcome SigmaProtocolMsg * World :=
  match checkInput this input with
  | Throw x => (Throw x, w)
  | Undef => (Undef, w)
  | Ret proversInput =>
      match first_messages (provers this) proversInput (indices (len this)) [] w with
      | (Ret firstMessages, w') => (Ret (SigmaMultipleMsg firstMessages), w')
      | (Throw x, w') => (Throw x, w')
      | (Undef, w') => (Undef, w')
      end
  end.

End Members.
Arguments object {_ _} World.
End SigmaANDProverComputation.

Module SigmaANDSimulator.
Section Members.
Context `{Group} `{Framing} `{Randomness} `{ANDLengthCheck} {World : Type}.

Record object : Type := {
  simulators : list (SigmaSimulator.object World);
  len : Z;
  t : Z;
  random : mt19937
}.

(** The loop of the constructor over [simulators]. *)
Fixpoint check_t (simulators : list (SigmaSimulator.object World)) (t : Z)
  : outcome () :=
  match simulators with
  | [] => Ret ()
  | sigmaSimulator :: rest =>
      if negb (t =? SigmaSimulator.getSoundnessParam sigmaSimulator)
      then Throw (by_value (invalid_argument
        "the given t does not equal to one of the t values in the underlying simulators objects."))
      else check_t rest t
  end.

(** [SigmaANDSimulator(simulators, t)] *)
Definition new (simulators : list (SigmaSimulator.object World)) (t : Z)
  : outcome object :=
  check_t simulators t ;;
  Ret {| simulators := simulators; len := to_int (size simulators); t := t;
         random := get_seeded_random |}.

(** A ghost record of the calls made to the underlying simulators: the
    index of the simulator called and the challenge it was handed. *)
Definition calls : Type := list (nat * list byte).

(** The loop [for (int i = 0; i < len; i++)] of [simulate], over the
    indices left to visit. *)
Fixpoint simulate_loop (simulators : list (SigmaSimulator.object World))
  (simulatorsInput : list SigmaCommonInput) (challenge : list byte)
  (todo : list nat) (aOutputs zOutputs : list SigmaProtocolMsg)
  (w : World) (log : calls)
  : outcome (list SigmaProtocolMsg * list SigmaProtocolMsg) * World * calls :=
  match todo with
  | [] => (Ret (aOutputs, zOutputs), w, log)
  | i :: rest =>
      match simulators !! i, simulatorsInput !! i with
      | Some simulator, Some input =>
          match SigmaSimulator.simulate simulator (Some input) challenge w with
          | (Ret output, w') =>
              simulate_loop simulators simulatorsInput challenge rest
                (push_back aOutputs (getA output))
                (push_back zOutputs (getZ output))
                w' (push_back log (i, challenge))
          | (Throw x, w') => (Throw x, w', push_back log (i, challenge))
          | (Undef, w') => (Undef, w', push_back log (i, challenge))
          end
      | _, _ => (Undef, w, log)
      end
  end.

(** [simulate(input, challenge)] *)
Definition simulate (this : object) (input : option SigmaCommonInput)
  (challenge : list byte) (w : World)
  : outcome SigmaSimulatorOutput * World * calls :=
  if negb (checkChallengeLength (t this) (to_int (size challenge)))
  then (Throw (by_value (CheatAttemptException
         "the length of the given challenge is different from the soundness parameter")),
        w, [])
  else
    match input with
    | Some (SigmaANDCommonInput simulatorsInput) =>
        let inputLen := to_int (size simulatorsInput) in
        if negb (inputLen =? len this)
        then (Throw (by_value (invalid_argument
               "number of inputs is different from number of underlying simulators.")),
              w, [])
        else
          match simulate_loop (simulators this) simulatorsInput challenge
                  (indices (len this)) [] [] w [] with
          | (Ret (aOutputs, zOutputs), w', log) =>
              (Ret {| getA := SigmaMultipleMsg aOutputs;
                      getE := challenge;
                      getZ := SigmaMultipleMsg zOutputs |}, w', log)
          | (Throw x, w', log) => (Throw x, w', log)
          | (Undef, w', log) => (Undef, w', log)
          end
    | _ => (Undef, w, [])
    end.

(** [simulate(input)]: the challenge is drawn, then [simulate(input, e)].
    Returned with the result: the challenge drawn and the simulator with
    its engine afterwards. *)
Definition simulate_fresh (this : object) (input : option SigmaCommonInput)
  (w : World)
  : outcome SigmaSimulatorOutput * World * calls * list byte * object :=
  let '(e, random') := gen_random_bytes_vector (t this ÷ 8) (random this) in
  (simulate this input e w, e,
   {| simulators := simulators this; len := len this; t := t this;
      random := random' |}).

End Members.
Arguments object {_ _} World.
End SigmaANDSimulator.

(** [SigmaANDProverComputation::getSimulator()], placed after the class of
    the simulator it builds: the simulators of the provers are collected in
    order and handed, with [t], to the constructor of the AND simulator. *)
Definition SigmaANDProverComputation_getSimulator
  `{Group} `{Randomness} {World : Type}
  (this : SigmaANDProverComputation.object World)
  : outcome (SigmaANDSimulator.object World) :=
  let simulators :=
    fold_left (fun simulators prover =>
                 push_back simulators (SigmaProverComputation.getSimulator prover))
              (SigmaANDProverComputation.provers this) [] in
  SigmaANDSimulator.new simulators (SigmaANDProverComputation.t this).

Module SigmaANDVerifierComputation.
Section Members.
Context `{Group} `{Framing} `{Randomness}.

Record object : Type := {
  verifiers : list SigmaVerifierComputation.object;
  len : Z;
  t : Z;
  random : mt19937
}.

(** The loop of the constructor over [verifiers]; its [throw new] throws a
    pointer to the exception object. *)
Fixpoint check_t (verifiers : list SigmaVerifierComputation.object) (t : Z)
  : outcome () :=
  match verifiers with
  | [] => Ret ()
  | verifier :: rest =>
      if negb (t =? SigmaVerifierComputation.getSoundnessParam verifier)
      then Throw (by_pointer (invalid_argument
        "the given t does not equal to one of the t values in the underlying verifiers objects."))
      else check_t rest t
  end.

(** [SigmaANDVerifierComputation(verifiers, t)] *)
Definition new (verifiers : list SigmaVerifierComputation.object) (t : Z)
  : outcome object :=
  check_t verifiers t ;;
  Ret {| verifiers := verifiers; len := to_int (size verifiers); t := t;
         random := get_seeded_random |}.

(** [sampleChallenge()]: [t / 8] bytes are drawn and set in every
    underlying verifier. *)
Definition sampleChallenge (this : object) : object :=
  let '(e, random') := gen_random_bytes_vector (t this ÷ 8) (random this) in
  {| verifiers := SigmaVerifierComputation.setChallenge e <$> verifiers this;
     len := len this; t := t this; random := random' |}.

(** [checkInput(in)]: the pointer is cast to [SigmaANDCommonInput*] without
    a check and the number of its inputs is compared with [len]. *)
Definition checkInput (this : object) (input : option SigmaCommonInput)
  : outcome () :=
  match input with
  | Some (SigmaANDCommonInput inputs) =>
      let inputLen := to_int (size inputs) in
      if negb (inputLen =? len this)
      then Throw (by_value (invalid_argument
             "number of inputs is different from number of underlying verifiers."))
      else Ret ()
  | _ => Undef
  end.

(** The loop [for (int i = 0; i < len; i++)] of [verify], over the indices
    left to visit. [verified && ..] evaluates its right operand only when
    [verified] is true. With the result comes a ghost record of the
    underlying verifiers whose [verify] was called, by index. *)
Fixpoint verify_loop (verifiers : list SigmaVerifierComputation.object)
  (verifiersInput : list SigmaCommonInput)
  (firstMessages secondMessages : list SigmaProtocolMsg)
  (todo : list nat) (verified : bool) (log : list nat)
  : outcome bool * list nat :=
  match todo with
  | [] => (Ret verified, log)
  | i :: rest =>
      if verified then
        match verifiers !! i, verifiersInput !! i,
              firstMessages !! i, secondMessages !! i with
        | Some verifier, Some input, Some a, Some z =>
            match SigmaVerifierComputation.verify verifier
                    (Some input) (Some a) (Some z) with
            | Ret b =>
                verify_loop verifiers verifiersInput firstMessages secondMessages
                  rest b (push_back log i)
            | Throw x => (Throw x, push_back log i)
            | Undef => (Undef, push_back log i)
            end
        | _, _, _, _ => (Undef, log)
        end
      else
        verify_loop verifiers verifiersInput firstMessages secondMessages
          rest false log
  end.

(** [verify(input, a, z)], with the ghost record of [verify_loop]. The two
    tests after the casts look at the pointers [a] and [z] handed in, not
    at the results [first] and [second] of the casts; [first->getMessages()]
    and [second->getMessages()] then go through whatever the casts gave. *)
Definition verify_logged (this : object) (input : option SigmaCommonInput)
  (a z : option SigmaProtocolMsg) : outcome bool * list nat :=
  match checkInput this input with
  | Throw x => (Throw x, [])
  | Undef => (Undef, [])
  | Ret _ =>
      let verifiersInput :=
        match input with
        | Some (SigmaANDCommonInput inputs) => inputs
        | _ => []
        end in
      let first := dynamic_cast_SigmaMultipleMsg a in
      let second := dynamic_cast_SigmaMultipleMsg z in
      if is_null a
      then (Throw (by_value (invalid_argument
             "first message must be an instance of SigmaMultipleMsg")), [])
      else if is_null z
      then (Throw (by_value (invalid_argument
             "second message must be an instance of SigmaMultipleMsg")), [])
      else
        match first, second with
        | Some firstMessages, Some secondMessages =>
            verify_loop (verifiers this) verifiersInput
              firstMessages secondMessages (indices (len this)) true []
        | _, _ => (Undef, [])
        end
  end.

Definition verify (this : object) (input : option SigmaCommonInput)
  (a z : option SigmaProtocolMsg) : outcome bool :=
  (verify_logged this input a z).1.

End Members.
End SigmaANDVerifierComputation.

(** ** Instances of the collaborators, for the examples

    The group of the sample program and of the scenarios of the
    specification: the subgroup of order [q] of the integers modulo the safe
    prime [p], an element carried as its representative and sent as its
    decimal numeral. *)

Record ZpGroupParams : Type := {
  zp_q : Z;
  zp_g : Z;
  zp_p : Z
}.

Definition Zp_group : Group := {|
  DlogGroup := ZpGroupParams;
  GroupElement := Z;
  GroupElementSendableData := Z;
  ge_toString := biginteger_str;
  ge_initFromString := fun _ s => biginteger_of_string s
|}.

(** A group whose elements travel as an opaque text, taken as it is. *)
Definition text_group : Group := {|
  DlogGroup := unit;
  GroupElement := string;
  GroupElementSendableData := string;
  ge_toString := fun x => x;
  ge_initFromString := fun _ s => Some s
|}.

(** An engine that walks a fixed tape of bytes. *)
Definition tape (i : nat) : byte :=
  default x00 (Byte.of_nat ((37 * i + 5) mod 256)%nat).

Definition tape_randomness : Randomness := {|
  mt19937 := nat;
  get_seeded_random := 0%nat;
  gen_random_bytes_vector := fun len random =>
    (tape <$> seq random (Z.to_nat len), (random + Z.to_nat len)%nat)
|}.

(** The first [n] characters of [s] and what follows them. *)
Fixpoint string_take (n : nat) (s : string) : option (string * string) :=
  match n with
  | O => Some (EmptyString, s)
  | S n' =>
      match s with
      | EmptyString => None
      | String c s' => '(part, rest) ← string_take n' s'; Some (String c part, rest)
      end
  end.

(** A framing: every part behind the decimal numeral of its length and a
    colon. *)
Fixpoint netstring_frame (parts : list string) : string :=
  match parts with
  | [] => EmptyString
  | part :: rest =>
      biginteger_str (Z.of_nat (String.length part)) +:+ ":" +:+ part
        +:+ netstring_frame rest
  end.

Fixpoint netstring_unframe_fuel (fuel : nat) (s : string) : option (list string) :=
  match fuel with
  | O => None
  | S fuel' =>
      match s with
      | EmptyString => Some []
      | _ =>
          '(numeral, body) ← split_first ":" s;
          n ← biginteger_of_string numeral;
          '(part, rest) ← string_take (Z.to_nat n) body;
          parts ← netstring_unframe_fuel fuel' rest;
          Some (part :: parts)
      end
  end.

Definition netstring_framing : Framing := {|
  frame := netstring_frame;
  unframe := fun s => netstring_unframe_fuel (S (String.length s)) s
|}.

(** The AND simulator checking a length as the DH simulator does. *)
Definition length_check_as_DH : ANDLengthCheck := {|
  checkChallengeLength := SigmaDHSimulator.checkChallengeLength
|}.

(** ** The Schnorr computations over the group of the sample

    The bodies of the Dlog computations are in SigmaProtocolDlog.cpp and
    the group is in primitives/Dlog.hpp, neither among the sources at
    hand. They are modelled from the specification, to serve as underlying
    computations in the examples. *)

(** [ceil(t/8)], the length the specification gives a challenge. *)
Definition ceil_eighth (t : Z) : Z := (t + 7) / 8.

Section Schnorr.
#[local] Existing Instance Zp_group.

(** Modelled from the spec: the challenge, absent with SigmaProtocolDlog.cpp
    where it is turned into an exponent, is read as an unsigned big-endian
    integer. *)
Definition challenge_value (e : list byte) : Z :=
  fold_left (fun acc b => 256 * acc + Z.of_N (Byte.to_N b)) e 0.

(** Modelled from the spec: [exponentiate] of the group, absent with
    primitives/Dlog.hpp; exponents are reduced modulo [q]. *)
Definition Zp_exponentiate (G : ZpGroupParams) (x n : Z) : Z :=
  x ^ (n mod zp_q G) mod zp_p G.

(** Modelled from the spec: [multiply] of the group, absent with
    primitives/Dlog.hpp. *)
Definition Zp_multiply (G : ZpGroupParams) (x y : Z) : Z :=
  (x * y) mod zp_p G.

(** Modelled from the spec: [is_member] of the group, absent with
    primitives/Dlog.hpp: [x] is in the subgroup of order [q]. *)
Definition Zp_is_member (G : ZpGroupParams) (x : Z) : bool :=
  (0 <? x) && (x <? zp_p G) && (x ^ zp_q G mod zp_p G =? 1).

(** Modelled from the spec: [validate_params] of the group, absent with
    primitives/Dlog.hpp: [p = 2q + 1] and [g] generates the subgroup. *)
Definition Zp_validate_params (G : ZpGroupParams) : bool :=
  (zp_p G =? 2 * zp_q G + 1) && (1 <? zp_g G) && Zp_is_member G (zp_g G).

(** Modelled from the spec: [SigmaDlogVerifierComputation::verify] is
    defined in SigmaProtocolDlog.cpp, not among the sources at hand. The
    spec has it accept when the group parameters are valid, [h] is a member
    and [g^z = a * h^e], and raise an invalid-argument error on an input or
    a message of the wrong class. *)
Definition Dlog_accepts (G : ZpGroupParams) (e : list byte)
  (input : option SigmaCommonInput)
  (a z : option SigmaProtocolMsg) : outcome bool :=
  match input, a, z with
  | Some (SigmaDlogCommonInput h), Some (SigmaGroupElementMsg a), Some (SigmaBIMsg z) =>
      Ret (Zp_validate_params G && Zp_is_member G h &&
           (Zp_exponentiate G (zp_g G) z =?
            Zp_multiply G a (Zp_exponentiate G h (challenge_value e))))
  | _, _, _ => Throw (by_value (invalid_argument "the given input is not as expected"))
  end.

Definition Dlog_verifier (G : ZpGroupParams) (t : Z)
  : SigmaVerifierComputation.object :=
  {| SigmaVerifierComputation.t := t;
     SigmaVerifierComputation.e := [];
     SigmaVerifierComputation.accepts := Dlog_accepts G |}.

(** Modelled from the spec: [SigmaDlogSimulator::simulate] is defined in
    SigmaProtocolDlog.cpp, not among the sources at hand. The spec has it
    require a challenge of [ceil(t/8)] bytes, draw [z] and output
    [(g^z * h^(-e), e, z)]. The world of the Schnorr simulators is how far
    the tape has been read; [z] is the next byte on it, reduced modulo
    [q]. *)
Definition Dlog_simulate (G : ZpGroupParams) (t : Z)
  (input : option SigmaCommonInput) (challenge : list byte) (w : nat)
  : outcome SigmaSimulatorOutput * nat :=
  if negb (size challenge =? ceil_eighth t)
  then (Throw (by_value (CheatAttemptException
         "the length of the given challenge is different from the soundness parameter")), w)
  else
    match input with
    | Some (SigmaDlogCommonInput h) =>
        let z := Z.of_N (Byte.to_N (tape w)) mod zp_q G in
        let a := Zp_multiply G (Zp_exponentiate G (zp_g G) z)
                   (Zp_exponentiate G h (- challenge_value challenge)) in
        (Ret {| getA := SigmaGroupElementMsg a; getE := challenge; getZ := SigmaBIMsg z |},
         S w)
    | _ => (Throw (by_value (invalid_argument "the given input is not as expected")), w)
    end.

Definition Dlog_simulator (G : ZpGroupParams) (t : Z)
  : SigmaSimulator.object nat :=
  {| SigmaSimulator.getSoundnessParam := t;
     SigmaSimulator.simulate := Dlog_simulate G t |}.

(** The world of the Schnorr provers of the examples: how far the tape has
    been read, and what every prover, by its number, keeps between its two
    messages (its random value and the witness). *)
Definition ProverWorld : Type := nat * list (nat * (Z * Z)).

Fixpoint kept_by (id : nat) (kept : list (nat * (Z * Z))) : option (Z * Z) :=
  match kept with
  | [] => None
  | (id', rw) :: kept' => if Nat.eqb id id' then Some rw else kept_by id kept'
  end.

Fixpoint forget (id : nat) (kept : list (nat * (Z * Z))) : list (nat * (Z * Z)) :=
  match kept with
  | [] => []
  | (id', rw) :: kept' =>
      if Nat.eqb id id' then forget id kept' else (id', rw) :: forget id kept'
  end.

(** Modelled from the spec: [SigmaDlogProverComputation::computeFirstMsg] is
    defined in SigmaProtocolDlog.cpp, not among the sources at hand. The
    spec has it draw [r], output [g^r] and keep [r]; an input of the wrong
    class is an invalid-argument error. [r] is the next byte on the tape,
    reduced modulo [q]. *)
Definition Dlog_computeFirstMsg (G : ZpGroupParams) (id : nat)
  (input : SigmaProverInput) (w : ProverWorld)
  : outcome SigmaProtocolMsg * ProverWorld :=
  match input with
  | SigmaDlogProverInput h x =>
      let r := Z.of_N (Byte.to_N (tape w.1)) mod zp_q G in
      (Ret (SigmaGroupElementMsg (Zp_exponentiate G (zp_g G) r)),
       (S w.1, (id, (r, x)) :: forget id w.2))
  | _ => (Throw (by_value (invalid_argument "the given input is not as expected")), w)
  end.

(** Modelled from the spec: [SigmaDlogProverComputation::computeSecondMsg]
    is defined in SigmaProtocolDlog.cpp, not among the sources at hand. The
    spec has it fail with a cheat-attempt error on a challenge that is not
    [ceil(t/8)] bytes long, output [z = (r + e w) mod q] and clear what was
    kept. Called with nothing kept, its behaviour is left undefined here. *)
Definition Dlog_computeSecondMsg (G : ZpGroupParams) (t : Z) (id : nat)
  (challenge : list byte) (w : ProverWorld)
  : outcome SigmaProtocolMsg * ProverWorld :=
  if negb (size challenge =? ceil_eighth t)
  then (Throw (by_value (CheatAttemptException
         "the length of the given challenge is different from the soundness parameter")), w)
  else
    match kept_by id w.2 with
    | Some (r, x) =>
        (Ret (SigmaBIMsg ((r + challenge_value challenge * x) mod zp_q G)),
         (w.1, forget id w.2))
    | None => (Undef, w)
    end.

(** The Schnorr simulator in the world of the provers. *)
Definition Dlog_simulator_of_prover (G : ZpGroupParams) (t : Z)
  : SigmaSimulator.object ProverWorld :=
  {| SigmaSimulator.getSoundnessParam := t;
     SigmaSimulator.simulate := fun input challenge w =>
       let '(output, read) := Dlog_simulate G t input challenge w.1 in
       (output, (read, w.2)) |}.

Definition Dlog_prover (G : ZpGroupParams) (t : Z) (id : nat)
  : SigmaProverComputation.object ProverWorld :=
  {| SigmaProverComputation.getSoundnessParam := t;
     SigmaProverComputation.computeFirstMsg := Dlog_computeFirstMsg G id;
     SigmaProverComputation.computeSecondMsg := Dlog_computeSecondMsg G t id;
     SigmaProverComputation.getSimulator := Dlog_simulator_of_prover G t |}.






(** The group of the scenarios: [p = 23], [q = 11], [g = 2]. *)
Definition G23 : ZpGroupParams := {| zp_q := 11; zp_g := 2; zp_p := 23 |}.


End Schnorr.

(** ** Vocabulary of the statements *)

(** [P] holds of two lists slot by slot, and the lists are equally long. *)
Section SlotBySlotProp.
Context {A B : Type} (P : A -> B -> Prop).

Fixpoint slot_by_slot (l : list A) (k : list B) : Prop :=
  match l, k with
  | [], [] => True
  | a :: l', b :: k' => P a b /\ slot_by_slot l' k'
  | _, _ => False
  end.

End SlotBySlotProp.

Section Vocabulary.
Context `{Group}.

(** The underlying verifier at index [i] returns true on the input and the
    two messages at index [i]. *)
Definition accepts_at (verifiers : list SigmaVerifierComputation.object)
  (inputs : list SigmaCommonInput) (firstMessages secondMessages : list SigmaProtocolMsg)
  (i : nat) : Prop :=
  exists verifier input a z,
    verifiers !! i = Some verifier /\ inputs !! i = Some input /\
    firstMessages !! i = Some a /\ secondMessages !! i = Some z /\
    SigmaVerifierComputation.verify verifier (Some input) (Some a) (Some z) = Ret true.

(** The underlying verifier at index [i], called on the input and the two
    messages at index [i], has the outcome [o]. *)
Definition returns_at (verifiers : list SigmaVerifierComputation.object)
  (inputs : list SigmaCommonInput) (firstMessages secondMessages : list SigmaProtocolMsg)
  (i : nat) (o : outcome bool) : Prop :=
  exists verifier input a z,
    verifiers !! i = Some verifier /\ inputs !! i = Some input /\
    firstMessages !! i = Some a /\ secondMessages !! i = Some z /\
    SigmaVerifierComputation.verify verifier (Some input) (Some a) (Some z) = o.




(** The underlying simulators, called one after the other on the inputs in
    order and all on [challenge], return [outputs] and take the world from
    [w] to [w']. *)
Inductive run_in_order {World : Type} (challenge : list byte)
  : list (SigmaSimulator.object World) -> list SigmaCommonInput -> World ->
    list SigmaSimulatorOutput -> World -> Prop :=
| run_none (w : World) : run_in_order challenge [] [] w [] w
| run_next simulator simulators input inputs w w1 w' output outputs :
    SigmaSimulator.simulate simulator (Some input) challenge w = (Ret output, w1) ->
    run_in_order challenge simulators inputs w1 outputs w' ->
    run_in_order challenge (simulator :: simulators) (input :: inputs) w
      (output :: outputs) w'.

(** The underlying provers, called one after the other on the prover
    inputs in order, return the first messages [messages] and take the world
    from [w] to [w']. *)
Inductive first_in_order {World : Type}
  : list (SigmaProverComputation.object World) -> list SigmaProverInput -> World ->
    list SigmaProtocolMsg -> World -> Prop :=
| first_none (w : World) : first_in_order [] [] w [] w
| first_next prover provers input inputs w w1 w' m messages :
    SigmaProverComputation.computeFirstMsg prover input w = (Ret m, w1) ->
    first_in_order provers inputs w1 messages w' ->
    first_in_order (prover :: provers) (input :: inputs) w (m :: messages) w'.

(** The underlying provers, called one after the other and all on
    [challenge], return the second messages [messages] and take the world
    from [w] to [w']. *)
Inductive second_in_order {World : Type} (challenge : list byte)
  : list (SigmaProverComputation.object World) -> World ->
    list SigmaProtocolMsg -> World -> Prop :=
| second_none (w : World) : second_in_order challenge [] w [] w
| second_next prover provers w w1 w' m messages :
    SigmaProverComputation.computeSecondMsg prover challenge w = (Ret m, w1) ->
    second_in_order challenge provers w1 messages w' ->
    second_in_order challenge (prover :: provers) w (m :: messages) w'.

(** What an AND verifier is after its constructor: [len] is the number of
    its verifiers as an [int], and every verifier has the soundness
    parameter [t]. *)
Definition ANDVerifier_built `{Randomness} (v : SigmaANDVerifierComputation.object) : Prop :=
  SigmaANDVerifierComputation.len v = to_int (size (SigmaANDVerifierComputation.verifiers v)) /\
  Forall (fun verifier => SigmaVerifierComputation.getSoundnessParam verifier
                          = SigmaANDVerifierComputation.t v)
    (SigmaANDVerifierComputation.verifiers v).

(** Two prover inputs state the same thing: they differ in their
    witnesses at most. *)
Fixpoint same_statement (input input' : SigmaProverInput) : Prop :=
  match input, input' with
  | SigmaDlogProverInput h _, SigmaDlogProverInput h' _ => h = h'
  | SigmaDHProverInput h u v _, SigmaDHProverInput h' u' v' _ =>
      h = h' /\ u = u' /\ v = v'
  | SigmaANDProverInput l, SigmaANDProverInput l' => slot_by_slot same_statement l l'
  | _, _ => False
  end.

End Vocabulary.

(** * Properties *)

(** ** Integers and loops *)

Lemma to_int_small (n : Z) : - 2 ^ 31 <= n <= INT_MAX -> to_int n = n.
Proof.
  unfold to_int, INT_MAX. intros Hn.
  rewrite Z.mod_small; lia.
Qed.

Lemma to_int_size {A} (v : list A) : size v <= INT_MAX -> to_int (size v) = size v.
Proof.
  intros Hv. apply to_int_small. unfold size in *. lia.
Qed.

Lemma indices_size {A} (v : list A) : indices (size v) = seq 0 (length v).
Proof.
  unfold indices, size. by rewrite Nat2Z.id.
Qed.

Lemma fold_left_push_back {A B} (f : A -> B) (l : list A) (acc : list B) :
  fold_left (fun acc x => push_back acc (f x)) l acc = acc ++ (f <$> l).
Proof.
  revert acc. induction l as [|x l IH]; intros acc; simpl.
  - by rewrite app_nil_r.
  - rewrite IH. unfold push_back. by rewrite <- app_assoc.
Qed.

(** ** The common input of an AND prover input *)

Section InputFacts.
Context {group : Group}.

(** C8. [SigmaANDProverInput::getCommonInput] returns a
    [SigmaANDCommonInput] whose list of inputs is as long as the list of
    prover inputs and holds, at every index, what [getCommonInput] of the
    prover input at that index returns. (Common inputs are values here, so
    that the object is built anew at every call shows only in that the
    result is computed from the prover inputs at every call.) *)
Theorem getCommonInput_AND_pointwise (sigmaInputs : list SigmaProverInput) :
  exists paramsArr,
    getCommonInput (SigmaANDProverInput sigmaInputs) = SigmaANDCommonInput paramsArr /\
    length paramsArr = length sigmaInputs /\
    forall i : nat, paramsArr !! i = getCommonInput <$> sigmaInputs !! i.
Proof.
  exists (getCommonInput <$> sigmaInputs). split; [|split].
  - simpl. by rewrite fold_left_push_back.
  - by rewrite length_fmap.
  - intros i. by rewrite list_lookup_fmap.
Qed.

End InputFacts.

(** ** The challenge kept by the Dlog and DH verifier computations *)

Section ChallengeFacts.
Context {group : Group} {randomness : Randomness}.

(** C9. [setChallenge] of the Dlog and of the DH verifier computation
    stores the bytes it is given, whatever their number and whatever [t]
    (it is a total function: nothing is checked and nothing is raised),
    and [getChallenge] then returns those bytes; the other members are
    left as they were. *)
Theorem setChallenge_then_getChallenge
  (dlogVerifier : SigmaDlogVerifierComputation.object)
  (dhVerifier : SigmaDHVerifierComputation.object)
  (challenge : list byte) :
  let dlogVerifier' := SigmaDlogVerifierComputation.setChallenge challenge dlogVerifier in
  let dhVerifier' := SigmaDHVerifierComputation.setChallenge challenge dhVerifier in
  SigmaDlogVerifierComputation.getChallenge dlogVerifier' = challenge /\
  SigmaDlogVerifierComputation.getSoundnessParam dlogVerifier'
    = SigmaDlogVerifierComputation.getSoundnessParam dlogVerifier /\
  SigmaDHVerifierComputation.getChallenge dhVerifier' = challenge /\
  SigmaDHVerifierComputation.getSoundnessParam dhVerifier'
    = SigmaDHVerifierComputation.getSoundnessParam dhVerifier.
Proof.
  by destruct dlogVerifier, dhVerifier.
Qed.

End ChallengeFacts.

(** ** The AND verifier *)

Section ANDVerifierFacts.
Context {group : Group} {randomness : Randomness}.

Lemma ANDVerifier_check_t_Ret verifiers t :
  Forall (fun v => SigmaVerifierComputation.getSoundnessParam v = t) verifiers ->
  SigmaANDVerifierComputation.check_t verifiers t = Ret ().
Proof.
  induction 1 as [|v vs Hv _ IH]; simpl; [done|].
  rewrite Hv, Z.eqb_refl. exact IH.
Qed.

Lemma ANDVerifier_check_t_Throw verifiers t :
  Exists (fun v => SigmaVerifierComputation.getSoundnessParam v <> t) verifiers ->
  SigmaANDVerifierComputation.check_t verifiers t =
  Throw (by_pointer (invalid_argument
    "the given t does not equal to one of the t values in the underlying verifiers objects.")).
Proof.
  induction verifiers as [|v vs IH]; intros Hex; simpl.
  - by apply Exists_nil in Hex.
  - destruct (Z.eqb_spec t (SigmaVerifierComputation.getSoundnessParam v)) as [Heq|Hne];
      simpl; [|done].
    apply IH. apply Exists_cons in Hex as [Hv|Hvs]; [congruence|done].
Qed.

Lemma ANDVerifier_new_Ret_inv verifiers t v :
  SigmaANDVerifierComputation.new verifiers t = Ret v ->
  v = {| SigmaANDVerifierComputation.verifiers := verifiers;
         SigmaANDVerifierComputation.len := to_int (size verifiers);
         SigmaANDVerifierComputation.t := t;
         SigmaANDVerifierComputation.random := get_seeded_random |}.
Proof.
  unfold SigmaANDVerifierComputation.new.
  destruct (SigmaANDVerifierComputation.check_t verifiers t); simpl; congruence.
Qed.

Lemma verify_loop_false verifiers inputs firstMessages secondMessages todo log :
  SigmaANDVerifierComputation.verify_loop verifiers inputs firstMessages secondMessages
    todo false log = (Ret false, log).
Proof.
  induction todo as [|i todo IH]; simpl; [done|exact IH].
Qed.

#[local] Ltac refute_accepts :=
  simpl; split; [done | intros [(?&?&?&?&?&?&?&?&?) _]; congruence].

Lemma verify_loop_true_iff verifiers inputs firstMessages secondMessages todo log :
  (SigmaANDVerifierComputation.verify_loop verifiers inputs firstMessages secondMessages
     todo true log).1 = Ret true <->
  Forall (accepts_at verifiers inputs firstMessages secondMessages) todo.
Proof.
  revert log. induction todo as [|i todo IH]; intros log; simpl.
  - split; [constructor|done].
  - rewrite Forall_cons. unfold accepts_at at 1.
    destruct (verifiers !! i) as [verifier|]; [|refute_accepts].
    destruct (inputs !! i) as [input|]; [|refute_accepts].
    destruct (firstMessages !! i) as [a|]; [|refute_accepts].
    destruct (secondMessages !! i) as [z|]; [|refute_accepts].
    destruct (SigmaVerifierComputation.verify verifier (Some input) (Some a) (Some z))
      as [[|]| |] eqn:Hv; [|rewrite verify_loop_false; refute_accepts..|refute_accepts|refute_accepts].
    rewrite IH. split; [|by intros [_ ?]].
    intros Htodo. split; [|done]. by exists verifier, input, a, z.
Qed.

Lemma accepts_at_seq verifiers inputs firstMessages secondMessages :
  length inputs = length verifiers ->
  length firstMessages = length verifiers ->
  length secondMessages = length verifiers ->
  Forall (accepts_at verifiers inputs firstMessages secondMessages)
    (seq 0 (length verifiers)) <->
  forall (i : nat) verifier input a z,
    verifiers !! i = Some verifier -> inputs !! i = Some input ->
    firstMessages !! i = Some a -> secondMessages !! i = Some z ->
    SigmaVerifierComputation.verify verifier (Some input) (Some a) (Some z) = Ret true.
Proof.
  intros Hi Ha Hz. rewrite Forall_forall. split.
  - intros Hall i verifier input a z Hv Hin Hfirst Hsecond.
    destruct (Hall i) as (v'&in'&a'&z'&?&?&?&?&Hacc).
    + apply elem_of_seq. apply lookup_lt_Some in Hv. lia.
    + congruence.
  - intros Hall i [_ Hlt]%elem_of_seq. simpl in Hlt.
    destruct (lookup_lt_is_Some_2 verifiers i) as [verifier Hv]; [lia|].
    destruct (lookup_lt_is_Some_2 inputs i) as [input Hin]; [lia|].
    destruct (lookup_lt_is_Some_2 firstMessages i) as [a Hfirst]; [lia|].
    destruct (lookup_lt_is_Some_2 secondMessages i) as [z Hsecond]; [lia|].
    exists verifier, input, a, z. eauto 10.
Qed.

(** What [verify] computes once the checks at its head are passed. *)
Lemma verify_logged_well_formed verifiers t v inputs firstMessages secondMessages :
  size verifiers <= INT_MAX ->
  SigmaANDVerifierComputation.new verifiers t = Ret v ->
  length inputs = length verifiers ->
  SigmaANDVerifierComputation.verify_logged v (Some (SigmaANDCommonInput inputs))
    (Some (SigmaMultipleMsg firstMessages)) (Some (SigmaMultipleMsg secondMessages)) =
  SigmaANDVerifierComputation.verify_loop verifiers inputs firstMessages secondMessages
    (seq 0 (length verifiers)) true [].
Proof.
  intros Hmax ->%ANDVerifier_new_Ret_inv Hi.
  unfold SigmaANDVerifierComputation.verify_logged,
    SigmaANDVerifierComputation.checkInput. simpl.
  unfold size at 1. rewrite Hi. fold (size verifiers).
  rewrite Z.eqb_refl. simpl.
  by rewrite to_int_size, indices_size.
Qed.

Lemma sampleChallenge_verifiers (v : SigmaANDVerifierComputation.object) :
  SigmaANDVerifierComputation.verifiers (SigmaANDVerifierComputation.sampleChallenge v) =
  SigmaVerifierComputation.setChallenge
    (gen_random_bytes_vector (SigmaANDVerifierComputation.t v ÷ 8)
       (SigmaANDVerifierComputation.random v)).1
  <$> SigmaANDVerifierComputation.verifiers v.
Proof.
  unfold SigmaANDVerifierComputation.sampleChallenge.
  by destruct (gen_random_bytes_vector _ _).
Qed.

(** C1. An AND verifier built over [N] verifiers, after it has sampled the
    challenge [e] that it sets in all of them, returns true on an AND
    common input of [N] inputs and two compound messages of [N] messages
    each if and only if every underlying verifier returns true, on [e], on
    the input and the two messages at its index. ([N] fits the [int] that
    [len] is.) *)
Theorem and_verify_iff_every_verifier
  (verifiers : list SigmaVerifierComputation.object) (t : Z)
  (v : SigmaANDVerifierComputation.object)
  (inputs : list SigmaCommonInput) (firstMessages secondMessages : list SigmaProtocolMsg) :
  size verifiers <= INT_MAX ->
  SigmaANDVerifierComputation.new verifiers t = Ret v ->
  length inputs = length verifiers ->
  length firstMessages = length verifiers ->
  length secondMessages = length verifiers ->
  let e := (gen_random_bytes_vector (t ÷ 8) get_seeded_random).1 in
  SigmaANDVerifierComputation.verify (SigmaANDVerifierComputation.sampleChallenge v)
    (Some (SigmaANDCommonInput inputs))
    (Some (SigmaMultipleMsg firstMessages)) (Some (SigmaMultipleMsg secondMessages))
  = Ret true
  <->
  forall (i : nat) verifier input a z,
    verifiers !! i = Some verifier -> inputs !! i = Some input ->
    firstMessages !! i = Some a -> secondMessages !! i = Some z ->
    SigmaVerifierComputation.accepts verifier e (Some input) (Some a) (Some z) = Ret true.
Proof.
  intros Hmax Hnew Hi Ha Hz e.
  pose proof (ANDVerifier_new_Ret_inv _ _ _ Hnew) as ->.
  set (v := {| SigmaANDVerifierComputation.verifiers := verifiers |}) in *.
  set (verifiers' := SigmaVerifierComputation.setChallenge e <$> verifiers).
  assert (Hlen : length verifiers' = length verifiers) by apply length_fmap.
  assert (Hv' : SigmaANDVerifierComputation.sampleChallenge v =
                {| SigmaANDVerifierComputation.verifiers := verifiers';
                   SigmaANDVerifierComputation.len := to_int (size verifiers');
                   SigmaANDVerifierComputation.t := t;
                   SigmaANDVerifierComputation.random :=
                     (gen_random_bytes_vector (t ÷ 8) get_seeded_random).2 |}).
  { unfold SigmaANDVerifierComputation.sampleChallenge, v, verifiers', e, size. simpl.
    destruct (gen_random_bytes_vector _ _). simpl. by rewrite length_fmap. }
  rewrite Hv'. unfold SigmaANDVerifierComputation.verify,
    SigmaANDVerifierComputation.verify_logged, SigmaANDVerifierComputation.checkInput.
  simpl. unfold size. rewrite Hi, <- Hlen, Z.eqb_refl. simpl.
  fold (size verifiers'). rewrite to_int_size by (unfold size in *; lia).
  rewrite indices_size, verify_loop_true_iff, accepts_at_seq by lia.
  unfold verifiers'. split.
  - intros Hall i verifier input a z Hv Hin Hfirst Hsecond.
    apply (Hall i (SigmaVerifierComputation.setChallenge e verifier) input a z);
      [|done..].
    by rewrite list_lookup_fmap, Hv.
  - intros Hall i verifier' input a z Hv Hin Hfirst Hsecond.
    rewrite list_lookup_fmap in Hv.
    destruct (verifiers !! i) as [verifier|] eqn:Hv0; simplify_eq/=.
    by apply (Hall i verifier input a z).
Qed.

(** The record of the calls made by the loop from index [s] on. *)
Lemma verify_loop_log verifiers inputs firstMessages secondMessages (n s : nat) log :
  length inputs = length verifiers ->
  length firstMessages = length verifiers ->
  length secondMessages = length verifiers ->
  (s + n <= length verifiers)%nat ->
  exists called,
    (SigmaANDVerifierComputation.verify_loop verifiers inputs firstMessages secondMessages
       (seq s n) true log).2 = log ++ called /\
    called = seq s (length called) /\
    forall i : nat, i ∈ called <->
      (s <= i < s + n)%nat /\
      forall j : nat, (s <= j < i)%nat ->
        accepts_at verifiers inputs firstMessages secondMessages j.
Proof.
  intros Hi Ha Hz. revert s log. induction n as [|n IH]; intros s log Hs; simpl.
  - exists []. rewrite app_nil_r. split; [done|]. split; [done|].
    intros i. rewrite elem_of_nil. lia.
  - destruct (lookup_lt_is_Some_2 verifiers s) as [verifier Hv]; [lia|].
    destruct (lookup_lt_is_Some_2 inputs s) as [input Hin]; [lia|].
    destruct (lookup_lt_is_Some_2 firstMessages s) as [a Hfirst]; [lia|].
    destruct (lookup_lt_is_Some_2 secondMessages s) as [z Hsecond]; [lia|].
    rewrite Hv, Hin, Hfirst, Hsecond.
    assert (Hstop : SigmaVerifierComputation.verify verifier (Some input) (Some a) (Some z)
                    <> Ret true ->
      forall i : nat, i ∈ [s] <->
        (s <= i < s + S n)%nat /\
        forall j : nat, (s <= j < i)%nat ->
          accepts_at verifiers inputs firstMessages secondMessages j).
    { intros Hrej i. rewrite list_elem_of_singleton. split; [intros ->; split; lia|].
      intros [Hrange Hbefore]. destruct (decide (i = s)) as [|Hne]; [done|].
      destruct (Hbefore s) as (?&?&?&?&?&?&?&?&?); [lia|]. congruence. }
    destruct (SigmaVerifierComputation.verify verifier (Some input) (Some a) (Some z))
      as [[|]| |] eqn:Hverify.
    + destruct (IH (S s) (push_back log s)) as (called & Hlog & Hseq & Hcalled); [lia|].
      exists (s :: called). rewrite Hlog. unfold push_back.
      split; [by rewrite <- app_assoc|]. split; [simpl; by rewrite <- Hseq|].
      intros i. rewrite elem_of_cons, Hcalled. split.
      * intros [->|[Hrange Hbefore]]; [split; lia|]. split; [lia|].
        intros j Hj. destruct (decide (j = s)) as [->|Hne].
        -- by exists verifier, input, a, z.
        -- apply Hbefore. lia.
      * intros [Hrange Hbefore]. destruct (decide (i = s)) as [|Hne]; [by left|right].
        split; [lia|]. intros j Hj. apply Hbefore. lia.
    + rewrite verify_loop_false. exists [s]. split; [done|]. split; [done|].
      by apply Hstop.
    + exists [s]. split; [done|]. split; [done|]. by apply Hstop.
    + exists [s]. split; [done|]. split; [done|]. by apply Hstop.
Qed.

(** C4, as amended. In a call of [verify] of an AND verifier built over [N]
    verifiers, on an AND common input of [N] inputs and two compound
    messages of [N] messages each, the underlying verifiers are called in
    the order of their indices, each at most once, and the verifier at
    index [i] is called if and only if every verifier before it has returned
    true. So all [N] are called when all return true, and none is called
    after the first that does not. *)
Theorem and_verify_calls_until_first_rejection
  (verifiers : list SigmaVerifierComputation.object) (t : Z)
  (v : SigmaANDVerifierComputation.object)
  (inputs : list SigmaCommonInput) (firstMessages secondMessages : list SigmaProtocolMsg) :
  size verifiers <= INT_MAX ->
  SigmaANDVerifierComputation.new verifiers t = Ret v ->
  length inputs = length verifiers ->
  length firstMessages = length verifiers ->
  length secondMessages = length verifiers ->
  let called :=
    (SigmaANDVerifierComputation.verify_logged v (Some (SigmaANDCommonInput inputs))
       (Some (SigmaMultipleMsg firstMessages)) (Some (SigmaMultipleMsg secondMessages))).2 in
  called = seq 0 (length called) /\
  (forall i : nat, i ∈ called <->
     (i < length verifiers)%nat /\
     forall j : nat, (j < i)%nat ->
       accepts_at verifiers inputs firstMessages secondMessages j) /\
  ((forall j : nat, (j < length verifiers)%nat ->
      accepts_at verifiers inputs firstMessages secondMessages j) ->
   called = seq 0 (length verifiers)).
Proof.
  intros Hmax Hnew Hi Ha Hz called. subst called.
  rewrite (verify_logged_well_formed _ _ _ _ _ _ Hmax Hnew Hi).
  destruct (verify_loop_log verifiers inputs firstMessages secondMessages
              (length verifiers) 0 [] Hi Ha Hz) as (called & -> & Hseq & Hcalled); [lia|].
  simpl. assert (Hiff : forall i : nat, i ∈ called <->
     (i < length verifiers)%nat /\
     forall j : nat, (j < i)%nat ->
       accepts_at verifiers inputs firstMessages secondMessages j).
  { intros i. rewrite Hcalled. split; intros [? Hb]; (split; [lia|]);
      intros j Hj; apply Hb; lia. }
  split; [done|]. split; [done|].
  intros Hall. rewrite Hseq. f_equal.
  assert (Hle : (length called <= length verifiers)%nat).
  { destruct (decide (length called <= length verifiers)%nat) as [|Hgt]; [done|].
    assert (Hin : length verifiers ∈ called).
    { rewrite Hseq. apply elem_of_seq. lia. }
    apply Hiff in Hin. lia. }
  destruct (decide (length called = length verifiers)) as [|Hne]; [done|].
  assert (Hin : length called ∈ called).
  { apply Hiff. split; [lia|]. intros j Hj. apply Hall. lia. }
  rewrite Hseq in Hin. apply elem_of_seq in Hin. rewrite length_seq in Hin. lia.
Qed.

(** C10. An AND verifier can be built over no verifier at all, whatever
    [t]; on the AND common input with no input and on any two compound
    messages its [verify] returns true. *)
Theorem and_verify_of_no_verifier (t : Z) (firstMessages secondMessages : list SigmaProtocolMsg) :
  exists v,
    SigmaANDVerifierComputation.new [] t = Ret v /\
    SigmaANDVerifierComputation.verify v (Some (SigmaANDCommonInput []))
      (Some (SigmaMultipleMsg firstMessages)) (Some (SigmaMultipleMsg secondMessages))
    = Ret true.
Proof.
  eexists. split; [reflexivity|]. reflexivity.
Qed.

(** What the two tests on the messages let through: a first message that
    is an object of another class is not refused; the list of messages is
    then read through the null pointer the cast has given. *)
Lemma and_verify_first_of_other_class (v : SigmaANDVerifierComputation.object)
  (inputs : list SigmaCommonInput) (a : SigmaProtocolMsg) (z : option SigmaProtocolMsg) :
  to_int (size inputs) = SigmaANDVerifierComputation.len v ->
  dynamic_cast_SigmaMultipleMsg (Some a) = None ->
  is_null z = false ->
  SigmaANDVerifierComputation.verify v (Some (SigmaANDCommonInput inputs)) (Some a) z = Undef.
Proof.
  intros Hlen Hcast Hz.
  unfold SigmaANDVerifierComputation.verify, SigmaANDVerifierComputation.verify_logged,
    SigmaANDVerifierComputation.checkInput.
  rewrite Hlen, Z.eqb_refl, Hcast, Hz. reflexivity.
Qed.

Lemma and_verify_second_of_other_class (v : SigmaANDVerifierComputation.object)
  (inputs : list SigmaCommonInput) (a : option SigmaProtocolMsg) (z : SigmaProtocolMsg) :
  to_int (size inputs) = SigmaANDVerifierComputation.len v ->
  is_null a = false ->
  dynamic_cast_SigmaMultipleMsg (Some z) = None ->
  SigmaANDVerifierComputation.verify v (Some (SigmaANDCommonInput inputs)) a (Some z) = Undef.
Proof.
  intros Hlen Ha Hcast.
  unfold SigmaANDVerifierComputation.verify, SigmaANDVerifierComputation.verify_logged,
    SigmaANDVerifierComputation.checkInput.
  rewrite Hlen, Z.eqb_refl, Hcast, Ha. simpl.
  by destruct (dynamic_cast_SigmaMultipleMsg a).
Qed.

(** Only the null pointer is refused. *)
Lemma and_verify_null_first (v : SigmaANDVerifierComputation.object)
  (inputs : list SigmaCommonInput) (z : option SigmaProtocolMsg) :
  to_int (size inputs) = SigmaANDVerifierComputation.len v ->
  SigmaANDVerifierComputation.verify v (Some (SigmaANDCommonInput inputs)) None z =
  Throw (by_value (invalid_argument "first message must be an instance of SigmaMultipleMsg")).
Proof.
  intros Hlen.
  unfold SigmaANDVerifierComputation.verify, SigmaANDVerifierComputation.verify_logged,
    SigmaANDVerifierComputation.checkInput.
  by rewrite Hlen, Z.eqb_refl.
Qed.

End ANDVerifierFacts.

(** ** The constructors of the AND classes *)

Section ConstructorFacts.
Context {group : Group} {randomness : Randomness} {World : Type}.

Lemma ANDProver_new_Ret (provers : list (SigmaProverComputation.object World)) (t : Z) :
  Forall (fun p => SigmaProverComputation.getSoundnessParam p = t) provers ->
  SigmaANDProverComputation.new provers t =
  Ret {| SigmaANDProverComputation.provers := provers;
         SigmaANDProverComputation.len := to_int (size provers);
         SigmaANDProverComputation.t := t;
         SigmaANDProverComputation.random := get_seeded_random |}.
Proof.
  intros Hall. unfold SigmaANDProverComputation.new.
  assert (SigmaANDProverComputation.check_t provers t = Ret ()) as ->; [|done].
  induction Hall as [|p ps Hp _ IH]; simpl; [done|].
  by rewrite Hp, Z.eqb_refl.
Qed.

Lemma ANDProver_new_Throw (provers : list (SigmaProverComputation.object World)) (t : Z) :
  Exists (fun p => SigmaProverComputation.getSoundnessParam p <> t) provers ->
  SigmaANDProverComputation.new provers t =
  Throw (by_value (invalid_argument
    "the given t does not equal to one of the t values in the underlying provers objects.")).
Proof.
  intros Hex. unfold SigmaANDProverComputation.new.
  assert (SigmaANDProverComputation.check_t provers t = Throw (by_value (invalid_argument
    "the given t does not equal to one of the t values in the underlying provers objects.")))
    as ->; [|done].
  induction provers as [|p ps IH]; simpl.
  - by apply Exists_nil in Hex.
  - destruct (Z.eqb_spec t (SigmaProverComputation.getSoundnessParam p)) as [Heq|Hne];
      simpl; [|done].
    apply IH. apply Exists_cons in Hex as [Hp|Hps]; [congruence|done].
Qed.

Lemma ANDVerifier_new_Ret (verifiers : list SigmaVerifierComputation.object) (t : Z) :
  Forall (fun v => SigmaVerifierComputation.getSoundnessParam v = t) verifiers ->
  SigmaANDVerifierComputation.new verifiers t =
  Ret {| SigmaANDVerifierComputation.verifiers := verifiers;
         SigmaANDVerifierComputation.len := to_int (size verifiers);
         SigmaANDVerifierComputation.t := t;
         SigmaANDVerifierComputation.random := get_seeded_random |}.
Proof.
  intros Hall. unfold SigmaANDVerifierComputation.new.
  by rewrite ANDVerifier_check_t_Ret.
Qed.

(** The verifier's constructor refuses what the prover's refuses, with a
    pointer where the prover's throws the object. *)
Lemma ANDVerifier_new_Throw (verifiers : list SigmaVerifierComputation.object) (t : Z) :
  Exists (fun v => SigmaVerifierComputation.getSoundnessParam v <> t) verifiers ->
  SigmaANDVerifierComputation.new verifiers t =
  Throw (by_pointer (invalid_argument
    "the given t does not equal to one of the t values in the underlying verifiers objects.")).
Proof.
  intros Hex. unfold SigmaANDVerifierComputation.new.
  by rewrite ANDVerifier_check_t_Throw.
Qed.

(** [computeSecondMsg] of the AND prover checks no length itself: it hands
    the challenge on, and over no prover it returns the empty compound
    message on any challenge. *)
Lemma ANDProver_computeSecondMsg_of_no_prover
  (this : SigmaANDProverComputation.object World) (challenge : list byte) (w : World) :
  SigmaANDProverComputation.provers this = [] ->
  SigmaANDProverComputation.computeSecondMsg this challenge w
  = (Ret (SigmaMultipleMsg []), w).
Proof.
  intros Hnone. unfold SigmaANDProverComputation.computeSecondMsg. by rewrite Hnone.
Qed.

End ConstructorFacts.

(** ** The AND verifier on two Schnorr proofs

    The group is that of the scenarios ([p = 23], [q = 11], [g = 2]) and
    [t = 8]. The first statement is [h = 16 = g^4], the second
    [h = 13 = g^7]; the challenge the tape gives is the byte [05]. With
    [r = 3] the first proof is [a = 8], [z = 1]; with [r = 5] the second is
    [a = 9], [z = 7]. *)

Section TwoSchnorrProofs.
#[local] Existing Instance Zp_group.
#[local] Existing Instance tape_randomness.

Example two_Dlog_verifiers_built :
  SigmaANDVerifierComputation.new [Dlog_verifier G23 8; Dlog_verifier G23 8] 8 =
  Ret {| SigmaANDVerifierComputation.verifiers := [Dlog_verifier G23 8; Dlog_verifier G23 8];
         SigmaANDVerifierComputation.len := 2;
         SigmaANDVerifierComputation.t := 8;
         SigmaANDVerifierComputation.random := 0%nat |}.
Proof. reflexivity. Qed.

Lemma and_verify_iff_every_verifier_witness :
  let verifiers := [Dlog_verifier G23 8; Dlog_verifier G23 8] in
  let v := {| SigmaANDVerifierComputation.verifiers := verifiers;
              SigmaANDVerifierComputation.len := 2;
              SigmaANDVerifierComputation.t := 8;
              SigmaANDVerifierComputation.random := 0%nat |} in
  let inputs := [SigmaDlogCommonInput 16; SigmaDlogCommonInput 13] in
  let firstMessages := [SigmaGroupElementMsg 8; SigmaGroupElementMsg 9] in
  let secondMessages := [SigmaBIMsg 1; SigmaBIMsg 7] in
  size verifiers <= INT_MAX /\
  SigmaANDVerifierComputation.new verifiers 8 = Ret v /\
  length inputs = length verifiers /\
  length firstMessages = length verifiers /\
  length secondMessages = length verifiers /\
  (SigmaANDVerifierComputation.verify (SigmaANDVerifierComputation.sampleChallenge v)
     (Some (SigmaANDCommonInput inputs))
     (Some (SigmaMultipleMsg firstMessages)) (Some (SigmaMultipleMsg secondMessages))
   = Ret true
   <->
   forall (i : nat) verifier input a z,
     verifiers !! i = Some verifier -> inputs !! i = Some input ->
     firstMessages !! i = Some a -> secondMessages !! i = Some z ->
     SigmaVerifierComputation.accepts verifier [x05] (Some input) (Some a) (Some z)
     = Ret true).
Proof.
  intros verifiers v inputs firstMessages secondMessages.
  assert (Hmax : size verifiers <= INT_MAX) by (vm_compute; discriminate).
  repeat split; try reflexivity; try exact Hmax;
    apply (and_verify_iff_every_verifier verifiers 8 v inputs firstMessages secondMessages
             Hmax eq_refl eq_refl eq_refl eq_refl).
Defined.

(** The first two scenarios of the specification: the proof [a = 8],
    [z = 1] of the knowledge of the logarithm of [16] is accepted on the
    challenge [05], and is rejected with [z = 2]. *)
Example Schnorr_proof_accepted :
  Dlog_accepts G23 [x05] (Some (SigmaDlogCommonInput 16))
    (Some (SigmaGroupElementMsg 8)) (Some (SigmaBIMsg 1)) = Ret true.
Proof. vm_compute. reflexivity. Qed.

Example Schnorr_proof_rejected :
  Dlog_accepts G23 [x05] (Some (SigmaDlogCommonInput 16))
    (Some (SigmaGroupElementMsg 8)) (Some (SigmaBIMsg 2)) = Ret false.
Proof. vm_compute. reflexivity. Qed.

Example two_Schnorr_proofs_accepted :
  SigmaANDVerifierComputation.verify
    (SigmaANDVerifierComputation.sampleChallenge
       {| SigmaANDVerifierComputation.verifiers := [Dlog_verifier G23 8; Dlog_verifier G23 8];
          SigmaANDVerifierComputation.len := 2;
          SigmaANDVerifierComputation.t := 8;
          SigmaANDVerifierComputation.random := 0%nat |})
    (Some (SigmaANDCommonInput [SigmaDlogCommonInput 16; SigmaDlogCommonInput 13]))
    (Some (SigmaMultipleMsg [SigmaGroupElementMsg 8; SigmaGroupElementMsg 9]))
    (Some (SigmaMultipleMsg [SigmaBIMsg 1; SigmaBIMsg 7]))
  = Ret true.
Proof. vm_compute. reflexivity. Qed.

(** C4, refuted as stated. The second message of the first proof is
    changed from [1] to [2]: the first verifier returns false, and the
    second verifier, whose proof is good, is never called. *)
Lemma and_verify_skips_after_rejection :
  let v := SigmaANDVerifierComputation.sampleChallenge
       {| SigmaANDVerifierComputation.verifiers := [Dlog_verifier G23 8; Dlog_verifier G23 8];
          SigmaANDVerifierComputation.len := 2;
          SigmaANDVerifierComputation.t := 8;
          SigmaANDVerifierComputation.random := 0%nat |} in
  SigmaANDVerifierComputation.verify_logged v
    (Some (SigmaANDCommonInput [SigmaDlogCommonInput 16; SigmaDlogCommonInput 13]))
    (Some (SigmaMultipleMsg [SigmaGroupElementMsg 8; SigmaGroupElementMsg 9]))
    (Some (SigmaMultipleMsg [SigmaBIMsg 2; SigmaBIMsg 7]))
  = (Ret false, [0%nat]) /\
  accepts_at (SigmaANDVerifierComputation.verifiers v)
    [SigmaDlogCommonInput 16; SigmaDlogCommonInput 13]
    [SigmaGroupElementMsg 8; SigmaGroupElementMsg 9]
    [SigmaBIMsg 2; SigmaBIMsg 7] 1.
Proof.
  split; [vm_compute; reflexivity|].
  eexists _, _, _, _. repeat split; reflexivity.
Qed.

Lemma and_verify_calls_until_first_rejection_witness :
  let verifiers := SigmaVerifierComputation.setChallenge [x05] <$>
                     [Dlog_verifier G23 8; Dlog_verifier G23 8] in
  let v := {| SigmaANDVerifierComputation.verifiers := verifiers;
              SigmaANDVerifierComputation.len := 2;
              SigmaANDVerifierComputation.t := 8;
              SigmaANDVerifierComputation.random := 0%nat |} in
  let inputs := [SigmaDlogCommonInput 16; SigmaDlogCommonInput 13] in
  let firstMessages := [SigmaGroupElementMsg 8; SigmaGroupElementMsg 9] in
  let secondMessages := [SigmaBIMsg 2; SigmaBIMsg 7] in
  let called :=
    (SigmaANDVerifierComputation.verify_logged v (Some (SigmaANDCommonInput inputs))
       (Some (SigmaMultipleMsg firstMessages)) (Some (SigmaMultipleMsg secondMessages))).2 in
  size verifiers <= INT_MAX /\
  SigmaANDVerifierComputation.new verifiers 8 = Ret v /\
  length inputs = length verifiers /\
  length firstMessages = length verifiers /\
  length secondMessages = length verifiers /\
  called = seq 0 (length called) /\
  (forall i : nat, i ∈ called <->
     (i < length verifiers)%nat /\
     forall j : nat, (j < i)%nat ->
       accepts_at verifiers inputs firstMessages secondMessages j) /\
  ((forall j : nat, (j < length verifiers)%nat ->
      accepts_at verifiers inputs firstMessages secondMessages j) ->
   called = seq 0 (length verifiers)).
Proof.
  intros verifiers v inputs firstMessages secondMessages called.
  assert (Hmax : size verifiers <= INT_MAX) by (vm_compute; discriminate).
  split; [exact Hmax|]. do 4 (split; [reflexivity|]).
  exact (and_verify_calls_until_first_rejection verifiers 8 v inputs firstMessages
           secondMessages Hmax eq_refl eq_refl eq_refl eq_refl).
Defined.

(** C3, where the code departs from it. The verifier is handed the first
    message of a single Schnorr proof where the compound message is due,
    and then the second message of one: neither call throws
    [invalid_argument]; both read through a null pointer. *)
Theorem and_verify_message_of_other_class_not_refused :
  exists v,
    SigmaANDVerifierComputation.new [Dlog_verifier G23 8] 8 = Ret v /\
    SigmaANDVerifierComputation.verify v
      (Some (SigmaANDCommonInput [SigmaDlogCommonInput 16]))
      (Some (SigmaGroupElementMsg 8))
      (Some (SigmaMultipleMsg [SigmaBIMsg 1])) = Undef /\
    SigmaANDVerifierComputation.verify v
      (Some (SigmaANDCommonInput [SigmaDlogCommonInput 16]))
      (Some (SigmaMultipleMsg [SigmaGroupElementMsg 8]))
      (Some (SigmaBIMsg 1)) = Undef.
Proof.
  eexists. split; [reflexivity|]. split; reflexivity.
Qed.

(** C5, where the code departs from it. Built over a verifier whose
    soundness parameter is [8] with [t = 16], the AND verifier throws a
    pointer to an [invalid_argument], which a handler for
    [invalid_argument] does not take; the AND simulator built over a
    simulator of soundness parameter [8] with [t = 16] throws the object. *)
Theorem and_verifier_constructor_throws_pointer :
  (exists x,
     SigmaANDVerifierComputation.new [Dlog_verifier G23 8] 16 = Throw (by_pointer x) /\
     catch_invalid_argument (by_pointer x) = false) /\
  (exists x,
     SigmaANDSimulator.new [Dlog_simulator G23 8] 16 = Throw (by_value x) /\
     catch_invalid_argument (by_value x) = true).
Proof.
  split; eexists; (split; [reflexivity|]); reflexivity.
Qed.

End TwoSchnorrProofs.

(** ** The AND simulator *)

Section ANDSimulatorFacts.
Context {group : Group} {randomness : Randomness} {check : ANDLengthCheck}
        {World : Type}.

Lemma ANDSimulator_new_Ret_inv (simulators : list (SigmaSimulator.object World)) t s :
  SigmaANDSimulator.new simulators t = Ret s ->
  s = {| SigmaANDSimulator.simulators := simulators;
         SigmaANDSimulator.len := to_int (size simulators);
         SigmaANDSimulator.t := t;
         SigmaANDSimulator.random := get_seeded_random |}.
Proof.
  unfold SigmaANDSimulator.new.
  destruct (SigmaANDSimulator.check_t simulators t); simpl; congruence.
Qed.

Lemma run_in_order_length challenge (simulators : list (SigmaSimulator.object World))
  inputs w outputs w' :
  run_in_order challenge simulators inputs w outputs w' ->
  length inputs = length simulators /\ length outputs = length simulators.
Proof.
  induction 1; simpl; [done|]. lia.
Qed.

(** The loop, started at the index where the simulators still to run begin. *)
Lemma simulate_loop_in_order challenge (rest : list (SigmaSimulator.object World))
  restInputs w outputs w' :
  run_in_order challenge rest restInputs w outputs w' ->
  forall done doneInputs aOutputs zOutputs log,
    length doneInputs = length done ->
    SigmaANDSimulator.simulate_loop (done ++ rest) (doneInputs ++ restInputs) challenge
      (seq (length done) (length rest)) aOutputs zOutputs w log =
    (Ret (aOutputs ++ (getA <$> outputs), zOutputs ++ (getZ <$> outputs)), w',
     log ++ ((fun i => (i, challenge)) <$> seq (length done) (length rest))).
Proof.
  induction 1 as [w|simulator simulators input inputs w w1 w' output outputs Hsim _ IH];
    intros done doneInputs aOutputs zOutputs log Hlen.
  - simpl. by rewrite !app_nil_r.
  - simpl. rewrite list_lookup_middle by done.
    rewrite list_lookup_middle by done. rewrite Hsim.
    assert (Hlen' : length (doneInputs ++ [input]) = length (done ++ [simulator]))
      by (rewrite !length_app; simpl; lia).
    specialize (IH (done ++ [simulator]) (doneInputs ++ [input])
                  (push_back aOutputs (getA output)) (push_back zOutputs (getZ output))
                  (push_back log (length done, challenge)) Hlen').
    replace (length (done ++ [simulator])) with (S (length done)) in IH
      by (rewrite length_app; simpl; lia).
    rewrite <- !app_assoc in IH. simpl in IH. rewrite IH.
    unfold push_back. by rewrite <- !app_assoc.
Qed.

(** C6. An AND simulator built over [N] simulators, handed an AND common
    input of [N] inputs and a challenge [e] that its length check lets
    through, calls the simulator at every index once, in order and with
    [e], and returns the compound message of their first messages in
    order, [e], and the compound message of their second messages in
    order. When no challenge is handed, [t / 8] bytes are drawn once from
    the engine of the AND simulator and the same is done with them.
    (The underlying simulators return; [N] fits the [int] that [len] is.) *)
Theorem and_simulate_runs_every_simulator_on_e
  (simulators : list (SigmaSimulator.object World)) (t : Z)
  (s : SigmaANDSimulator.object World)
  (inputs : list SigmaCommonInput) (e : list byte)
  (w w' : World) (outputs : list SigmaSimulatorOutput) :
  size simulators <= INT_MAX ->
  SigmaANDSimulator.new simulators t = Ret s ->
  checkChallengeLength t (to_int (size e)) = true ->
  run_in_order e simulators inputs w outputs w' ->
  let result :=
    (Ret {| getA := SigmaMultipleMsg (getA <$> outputs);
            getE := e;
            getZ := SigmaMultipleMsg (getZ <$> outputs) |},
     w',
     (fun i => (i, e)) <$> seq 0 (length simulators)) in
  length inputs = length simulators /\
  SigmaANDSimulator.simulate s (Some (SigmaANDCommonInput inputs)) e w = result /\
  (e = (gen_random_bytes_vector (t ÷ 8) get_seeded_random).1 ->
   SigmaANDSimulator.simulate_fresh s (Some (SigmaANDCommonInput inputs)) w =
   (result, e,
    {| SigmaANDSimulator.simulators := simulators;
       SigmaANDSimulator.len := to_int (size simulators);
       SigmaANDSimulator.t := t;
       SigmaANDSimulator.random :=
         (gen_random_bytes_vector (t ÷ 8) get_seeded_random).2 |})).
Proof.
  intros Hmax ->%ANDSimulator_new_Ret_inv Hcheck Hrun result.
  destruct (run_in_order_length _ _ _ _ _ _ Hrun) as [Hi Ho].
  assert (Hsim : SigmaANDSimulator.simulate
            {| SigmaANDSimulator.simulators := simulators;
               SigmaANDSimulator.len := to_int (size simulators);
               SigmaANDSimulator.t := t;
               SigmaANDSimulator.random := get_seeded_random |}
            (Some (SigmaANDCommonInput inputs)) e w = result).
  { unfold SigmaANDSimulator.simulate. simpl. rewrite Hcheck. simpl.
    unfold size at 1. rewrite Hi. fold (size simulators). rewrite Z.eqb_refl. simpl.
    rewrite to_int_size, indices_size by done.
    pose proof (simulate_loop_in_order e simulators inputs w outputs w' Hrun
                  [] [] [] [] [] eq_refl) as Hloop.
    simpl in Hloop. by rewrite Hloop. }
  split; [done|]. split; [done|].
  intros He. unfold SigmaANDSimulator.simulate_fresh. simpl.
  destruct (gen_random_bytes_vector (t ÷ 8) get_seeded_random) as [e' random'] eqn:Hgen.
  simpl in He. subst e'. by rewrite Hsim.
Qed.

(** Conversely, what [simulate] returns is made of what the underlying
    simulators, called in order on the challenge, have returned. *)
Lemma simulate_loop_Ret_inv challenge (rest : list (SigmaSimulator.object World)) :
  forall restInputs done doneInputs aOutputs zOutputs w log a z w' log',
    length doneInputs = length done ->
    length restInputs = length rest ->
    SigmaANDSimulator.simulate_loop (done ++ rest) (doneInputs ++ restInputs) challenge
      (seq (length done) (length rest)) aOutputs zOutputs w log = (Ret (a, z), w', log') ->
    exists outputs,
      run_in_order challenge rest restInputs w outputs w' /\
      a = aOutputs ++ (getA <$> outputs) /\ z = zOutputs ++ (getZ <$> outputs).
Proof.
  induction rest as [|simulator rest IH];
    intros [|input restInputs] done doneInputs aOutputs zOutputs w log a z w' log'
      Hdone Hrest; try discriminate; simpl.
  - intros [= <- <- <- <-]. exists []. rewrite !app_nil_r. split; [constructor|done].
  - rewrite list_lookup_middle by done. rewrite list_lookup_middle by done.
    destruct (SigmaSimulator.simulate simulator (Some input) challenge w)
      as [[output| |] w1] eqn:Hsim; try discriminate.
    intros Hloop.
    assert (Hlen : length (doneInputs ++ [input]) = length (done ++ [simulator]))
      by (rewrite !length_app; simpl; lia).
    specialize (IH restInputs (done ++ [simulator]) (doneInputs ++ [input])
                  (push_back aOutputs (getA output)) (push_back zOutputs (getZ output))
                  w1 (push_back log (length done, challenge)) a z w' log' Hlen).
    replace (length (done ++ [simulator])) with (S (length done)) in IH
      by (rewrite length_app; simpl; lia).
    rewrite <- !app_assoc in IH. simpl in IH, Hrest.
    destruct IH as (outputs & Hrun & -> & ->); [lia|done|].
    exists (output :: outputs). split; [by econstructor|].
    unfold push_back. by rewrite <- !app_assoc.
Qed.

Lemma and_simulate_Ret_inv (s : SigmaANDSimulator.object World) inputs e w output w' log :
  SigmaANDSimulator.len s = to_int (size (SigmaANDSimulator.simulators s)) ->
  size (SigmaANDSimulator.simulators s) <= INT_MAX ->
  size inputs <= INT_MAX ->
  SigmaANDSimulator.simulate s (Some (SigmaANDCommonInput inputs)) e w
  = (Ret output, w', log) ->
  exists outputs,
    run_in_order e (SigmaANDSimulator.simulators s) inputs w outputs w' /\
    output = {| getA := SigmaMultipleMsg (getA <$> outputs);
                getE := e;
                getZ := SigmaMultipleMsg (getZ <$> outputs) |}.
Proof.
  intros Hlen Hmax Hin. unfold SigmaANDSimulator.simulate.
  destruct (negb (checkChallengeLength _ _)); [discriminate|].
  destruct (Z.eqb_spec (to_int (size inputs)) (SigmaANDSimulator.len s)) as [Heq|];
    simpl; [|discriminate].
  rewrite Hlen, to_int_size, indices_size by done.
  destruct (SigmaANDSimulator.simulate_loop _ _ _ _ _ _ _ _) as [[[[a z]| |] w1] log1]
    eqn:Hloop; try discriminate.
  intros [= <- <- <-].
  assert (Hinputs : length inputs = length (SigmaANDSimulator.simulators s)).
  { rewrite Hlen, !to_int_size in Heq by done. unfold size in Heq. lia. }
  destruct (simulate_loop_Ret_inv e (SigmaANDSimulator.simulators s) inputs
              [] [] [] [] w [] a z w1 log1 eq_refl Hinputs Hloop)
    as (outputs & Hrun & -> & ->).
  by exists outputs.
Qed.


(** Whatever the loop throws, an underlying simulator has thrown. *)
Lemma simulate_loop_Throw simulators inputs e todo aOutputs zOutputs (w : World) log x w' log' :
  SigmaANDSimulator.simulate_loop simulators inputs e todo aOutputs zOutputs w log
  = (Throw x, w', log') ->
  log' <> [].
Proof.
  revert aOutputs zOutputs w log. induction todo as [|i todo IH];
    intros aOutputs zOutputs w log; simpl; [congruence|].
  destruct (simulators !! i); [|congruence].
  destruct (inputs !! i); [|congruence].
  destruct (SigmaSimulator.simulate _ _ _ _) as [[output| |] w1].
  - apply IH.
  - intros [= <- <- <-]. unfold push_back. by destruct log.
  - congruence.
Qed.

(** A challenge the length check lets through is not answered by an
    exception of the AND simulator's own making other than for the number
    of inputs: what is thrown with no simulator called is
    [invalid_argument]. *)
Lemma and_simulate_accepts_length (s : SigmaANDSimulator.object World) input e w x w' :
  checkChallengeLength (SigmaANDSimulator.t s) (to_int (size e)) = true ->
  SigmaANDSimulator.simulate s input e w = (Throw x, w', []) ->
  x = by_value (invalid_argument
        "number of inputs is different from number of underlying simulators.").
Proof.
  intros Hcheck. unfold SigmaANDSimulator.simulate. rewrite Hcheck. simpl.
  destruct input as [[| |inputs]|]; try congruence.
  destruct (negb _); [congruence|].
  destruct (SigmaANDSimulator.simulate_loop _ _ _ _ _ _ _ _) as [[[[a z]| |] w1] log] eqn:Hloop;
    try congruence.
  intros [= <- <- ->]. by apply simulate_loop_Throw in Hloop.
Qed.

End ANDSimulatorFacts.

(** ** The length of a challenge *)

Lemma tape_randomness_laws : @RandomnessLaws tape_randomness.
Proof.
  constructor. intros len random. simpl. by rewrite length_fmap, length_seq.
Qed.


Section ChallengeLengthFacts.
Context {group : Group} {randomness : Randomness} {laws : RandomnessLaws}
        {check : ANDLengthCheck} {World : Type}.








End ChallengeLengthFacts.

Section ChallengeLengthExamples.
#[local] Existing Instance Zp_group.
#[local] Existing Instance tape_randomness.
#[local] Existing Instance length_check_as_DH.





End ChallengeLengthExamples.

(** ** The AND simulator on two Schnorr statements *)

Section TwoSchnorrSimulations.
#[local] Existing Instance Zp_group.
#[local] Existing Instance tape_randomness.
#[local] Existing Instance length_check_as_DH.

Lemma and_simulate_runs_every_simulator_on_e_witness :
  let simulators := [Dlog_simulator G23 8; Dlog_simulator G23 8] in
  let s := {| SigmaANDSimulator.simulators := simulators;
              SigmaANDSimulator.len := 2;
              SigmaANDSimulator.t := 8;
              SigmaANDSimulator.random := 0%nat |} in
  let inputs := [SigmaDlogCommonInput 16; SigmaDlogCommonInput 13] in
  let e := [x05] in
  let outputs :=
    [ {| getA := SigmaGroupElementMsg 13; getE := e; getZ := SigmaBIMsg 5 |};
      {| getA := SigmaGroupElementMsg 13; getE := e; getZ := SigmaBIMsg 9 |} ] in
  let result :=
    (Ret {| getA := SigmaMultipleMsg [SigmaGroupElementMsg 13; SigmaGroupElementMsg 13];
            getE := e;
            getZ := SigmaMultipleMsg [SigmaBIMsg 5; SigmaBIMsg 9] |},
     2%nat, [(0%nat, e); (1%nat, e)]) in
  size simulators <= INT_MAX /\
  SigmaANDSimulator.new simulators 8 = Ret s /\
  checkChallengeLength 8 (to_int (size e)) = true /\
  run_in_order e simulators inputs 0%nat outputs 2%nat /\
  SigmaANDSimulator.simulate s (Some (SigmaANDCommonInput inputs)) e 0%nat = result /\
  SigmaANDSimulator.simulate_fresh s (Some (SigmaANDCommonInput inputs)) 0%nat
  = (result, e,
     {| SigmaANDSimulator.simulators := simulators;
        SigmaANDSimulator.len := 2;
        SigmaANDSimulator.t := 8;
        SigmaANDSimulator.random := 1%nat |}).
Proof.
  intros simulators s inputs e outputs result.
  assert (Hmax : size simulators <= INT_MAX) by (vm_compute; discriminate).
  assert (Hrun : run_in_order e simulators inputs 0%nat outputs 2%nat).
  { apply run_next with (w1 := 1%nat); [reflexivity|].
    apply run_next with (w1 := 2%nat); [reflexivity|]. apply run_none. }
  assert (Hnew : SigmaANDSimulator.new simulators 8 = Ret s) by reflexivity.
  assert (Hcheck : checkChallengeLength 8 (to_int (size e)) = true) by reflexivity.
  destruct (and_simulate_runs_every_simulator_on_e simulators 8 s inputs e
              0%nat 2%nat outputs Hmax Hnew Hcheck Hrun) as (_ & Hsim & Hfresh).
  split; [exact Hmax|]. split; [exact Hnew|]. split; [exact Hcheck|].
  split; [exact Hrun|]. split; [exact Hsim|]. apply Hfresh. reflexivity.
Defined.

(** The transcript the AND simulator produces is one the AND verifier
    accepts on the same challenge. *)
Example simulated_transcript_accepted :
  SigmaANDVerifierComputation.verify
    {| SigmaANDVerifierComputation.verifiers :=
         SigmaVerifierComputation.setChallenge [x05] <$>
           [Dlog_verifier G23 8; Dlog_verifier G23 8];
       SigmaANDVerifierComputation.len := 2;
       SigmaANDVerifierComputation.t := 8;
       SigmaANDVerifierComputation.random := 0%nat |}
    (Some (SigmaANDCommonInput [SigmaDlogCommonInput 16; SigmaDlogCommonInput 13]))
    (Some (SigmaMultipleMsg [SigmaGroupElementMsg 13; SigmaGroupElementMsg 13]))
    (Some (SigmaMultipleMsg [SigmaBIMsg 5; SigmaBIMsg 9]))
  = Ret true.
Proof. vm_compute. reflexivity. Qed.

End TwoSchnorrSimulations.

(** ** The text form of [biginteger] *)

Lemma read_digits_of_uint_acc (d : Decimal.uint) (acc : positive) :
  read_digits (NilEmpty.string_of_uint d) (Z.pos acc) = Some (Z.pos (Pos.of_uint_acc d acc)).
Proof.
  revert acc. induction d as [|d IH|d IH|d IH|d IH|d IH|d IH|d IH|d IH|d IH|d IH];
    intros acc; simpl; [done|..];
    match goal with
    | |- read_digits _ ?v = Some (Z.pos (Pos.of_uint_acc _ ?a)) =>
        replace v with (Z.pos a) by lia
    end; apply IH.
Qed.

Lemma nzhead_not_D0 (d d' : Decimal.uint) : Decimal.nzhead d <> Decimal.D0 d'.
Proof.
  induction d; simpl; congruence.
Qed.

Lemma to_uint_not_D0 (p : positive) (d : Decimal.uint) : Pos.to_uint p <> Decimal.D0 d.
Proof.
  intros Hd.
  pose proof (DecimalPos.Unsigned.to_of (Pos.to_uint p)) as Hnorm.
  rewrite DecimalPos.Unsigned.of_to in Hnorm. simpl in Hnorm.
  rewrite Hd, DecimalFacts.unorm_D0 in Hnorm.
  unfold Decimal.unorm in Hnorm.
  destruct (Decimal.nzhead d) eqn:Hhead; try discriminate.
  - injection Hnorm as ->. by apply (DecimalPos.Unsigned.to_uint_nonzero p).
  - by apply (nzhead_not_D0 d u).
Qed.

Lemma read_unsigned_to_uint (p : positive) :
  read_unsigned (NilEmpty.string_of_uint (Pos.to_uint p)) = Some (Z.pos p).
Proof.
  pose proof (DecimalPos.Unsigned.of_to p) as Hof.
  destruct (Pos.to_uint p) as [|d|d|d|d|d|d|d|d|d|d] eqn:Hd;
    [discriminate|by apply to_uint_not_D0 in Hd|..];
    simpl in Hof; injection Hof as <-;
    unfold read_unsigned; simpl; apply read_digits_of_uint_acc.
Qed.

Lemma string_of_uint_to_uint (p : positive) :
  NilZero.string_of_uint (Pos.to_uint p) = NilEmpty.string_of_uint (Pos.to_uint p).
Proof.
  pose proof (DecimalPos.Unsigned.to_uint_nonnil p). by destruct (Pos.to_uint p).
Qed.

(** The first character of the numeral of a positive number is a digit
    other than [0]. *)
Lemma string_of_uint_head (p : positive) :
  exists c s, NilEmpty.string_of_uint (Pos.to_uint p) = String c s /\
              c <> "-"%char /\ c <> "0"%char.
Proof.
  destruct (Pos.to_uint p) as [|d|d|d|d|d|d|d|d|d|d] eqn:Hd;
    [by apply DecimalPos.Unsigned.to_uint_nonnil in Hd|by apply to_uint_not_D0 in Hd|..];
    simpl; eexists _, _; (split; [reflexivity|]); split; discriminate.
Qed.

Lemma biginteger_of_string_str (z : Z) : biginteger_of_string (biginteger_str z) = Some z.
Proof.
  unfold biginteger_str. destruct z as [|p|p]; simpl; [done|..].
  - rewrite string_of_uint_to_uint.
    pose proof (read_unsigned_to_uint p) as Hread.
    destruct (string_of_uint_head p) as (c & s & Hs & Hminus & _).
    rewrite Hs in *. unfold biginteger_of_string.
    destruct c as [[] [] [] [] [] [] [] []]; try exact Hread. done.
  - rewrite string_of_uint_to_uint. unfold biginteger_of_string.
    by rewrite read_unsigned_to_uint.
Qed.

(** The numeral [str()] prints: a minus sign for a negative number, then
    the decimal digits of the absolute value. *)
Lemma biginteger_str_decimal (z : Z) :
  exists digits,
    biginteger_str z = (if z <? 0 then "-" else "") +:+ digits /\
    read_digits digits 0 = Some (Z.abs z).
Proof.
  unfold biginteger_str. destruct z as [|p|p]; simpl.
  - by exists "0"%string.
  - exists (NilEmpty.string_of_uint (Pos.to_uint p)).
    split; [apply string_of_uint_to_uint|].
    pose proof (read_unsigned_to_uint p) as Hread.
    destruct (string_of_uint_head p) as (c & s & Hs & _ & Hzero).
    rewrite Hs in *. unfold read_unsigned in Hread.
    destruct c as [[] [] [] [] [] [] [] []]; try exact Hread.
    done.
  - exists (NilEmpty.string_of_uint (Pos.to_uint p)).
    split; [by rewrite string_of_uint_to_uint|].
    pose proof (read_unsigned_to_uint p) as Hread.
    destruct (string_of_uint_head p) as (c & s & Hs & _ & Hzero).
    rewrite Hs in *. unfold read_unsigned in Hread.
    destruct c as [[] [] [] [] [] [] [] []]; try exact Hread.
    done.
Qed.

Lemma free_of_colon_string_of_uint (d : Decimal.uint) :
  free_of ":" (NilEmpty.string_of_uint d) = true.
Proof.
  induction d; simpl; done.
Qed.

Lemma free_of_colon_biginteger_str (z : Z) : free_of ":" (biginteger_str z) = true.
Proof.
  unfold biginteger_str. destruct z as [|p|p]; simpl; [done|..];
    rewrite string_of_uint_to_uint; apply free_of_colon_string_of_uint.
Qed.

(** ** Strings *)

Lemma split_first_append (sep : ascii) (s1 s2 : string) :
  free_of sep s1 = true ->
  split_first sep (s1 +:+ String sep s2) = Some (s1, s2).
Proof.
  induction s1 as [|c s1 IH]; simpl.
  - intros _. by rewrite Ascii.eqb_refl.
  - intros [Hc Hs1]%andb_prop. apply negb_true_iff in Hc. rewrite Hc.
    by rewrite IH.
Qed.

Lemma string_take_append (s1 s2 : string) :
  string_take (String.length s1) (s1 +:+ s2) = Some (s1, s2).
Proof.
  induction s1 as [|c s1 IH]; simpl; [done|]. by rewrite IH.
Qed.

Lemma string_length_append (s1 s2 : string) :
  String.length (s1 +:+ s2) = (String.length s1 + String.length s2)%nat.
Proof.
  induction s1 as [|c s1 IH]; simpl; [done|]. by rewrite IH.
Qed.

(** ** The framing of the examples *)

Lemma netstring_frame_length (parts : list string) :
  (length parts <= String.length (netstring_frame parts))%nat.
Proof.
  induction parts as [|part parts IH]; simpl; [done|].
  rewrite !string_length_append. simpl. lia.
Qed.

Lemma netstring_unframe_fuel_frame (parts : list string) (fuel : nat) :
  (length parts < fuel)%nat ->
  netstring_unframe_fuel fuel (netstring_frame parts) = Some parts.
Proof.
  revert fuel. induction parts as [|part parts IH]; intros fuel Hfuel;
    (destruct fuel as [|fuel]; [simpl in Hfuel; lia|]); [done|].
  simpl in Hfuel. cbn [netstring_frame netstring_unframe_fuel].
  destruct (biginteger_str _ +:+ _) as [|c s] eqn:Hs.
  { apply (f_equal String.length) in Hs. rewrite string_length_append in Hs.
    simpl in Hs. lia. }
  rewrite <- Hs. change (":" +:+ (part +:+ netstring_frame parts))
    with (String ":" (part +:+ netstring_frame parts)).
  rewrite split_first_append by apply free_of_colon_biginteger_str. simpl.
  rewrite biginteger_of_string_str. simpl.
  rewrite Nat2Z.id, string_take_append. simpl.
  rewrite IH by lia. done.
Qed.

Lemma netstring_framing_laws : @FramingLaws netstring_framing.
Proof.
  constructor. intros parts.
  apply (netstring_unframe_fuel_frame parts (S (String.length (netstring_frame parts)))).
  pose proof (netstring_frame_length parts). lia.
Qed.

Lemma Zp_group_laws : @GroupLaws Zp_group.
Proof.
  constructor. intros this x. apply biginteger_of_string_str.
Qed.

(** ** The messages, written and read back *)

Section MessageFacts.
Context {group : Group} {framing : Framing}.

Lemma SigmaProtocolMsg_nested_ind (P : SigmaProtocolMsg -> Prop) :
  (forall element, P (SigmaGroupElementMsg element)) ->
  (forall z, P (SigmaBIMsg z)) ->
  (forall a b, P (SigmaDHMsg a b)) ->
  (forall messages, Forall P messages -> P (SigmaMultipleMsg messages)) ->
  forall m, P m.
Proof.
  intros Helement Hbi Hdh Hmultiple.
  fix IH 1. intros [element|z|a b|messages].
  - apply Helement.
  - apply Hbi.
  - apply Hdh.
  - apply Hmultiple. induction messages as [|m messages IHmessages].
    + constructor.
    + constructor; [apply IH|apply IHmessages].
Qed.

Context {groupLaws : GroupLaws} {framingLaws : FramingLaws}.

(** C7, as amended. A message whose [SigmaDHMsg] parts have no [:] in the
    text of their first element, written by [toString] and read by
    [initFromString] into a message object of the same classes, is read
    back as it was. That holds of every [SigmaBIMsg], whose text is the
    decimal numeral of its signed integer: a minus sign when the integer
    is negative, then the decimal digits of its absolute value. *)
Theorem message_read_back (m : SigmaProtocolMsg) :
  (forall this : SigmaProtocolMsg,
     same_classes this m = true -> colon_free m = true ->
     initFromString this (toString m) = Some m) /\
  (forall z : Z,
     m = SigmaBIMsg z ->
     initFromString SigmaBIMsg_default (toString m) = Some m /\
     exists digits,
       toString m = (if z <? 0 then "-" else "") +:+ digits /\
       read_digits digits 0 = Some (Z.abs z)).
Proof.
  split.
  - induction m as [element|z|a b|messages IH] using SigmaProtocolMsg_nested_ind;
      intros [element'|z'|a' b'|messages'] Hsame Hfree; try discriminate; simpl.
    + by rewrite ge_initFromString_toString.
    + by rewrite biginteger_of_string_str.
    + simpl in Hfree. unfold SigmaDHMsg_initFromString.
      change (":" +:+ ge_toString b) with (String ":" (ge_toString b)).
      rewrite split_first_append by done. simpl.
      by rewrite !ge_initFromString_toString.
    + unfold SigmaMultipleMsg_initFromString, SigmaMultipleMsg_toString.
      rewrite unframe_frame. simpl. simpl in Hsame, Hfree.
      match goal with |- SigmaMultipleMsg <$> ?read = _ =>
        assert (read = Some messages) as ->; [|done] end.
      revert messages' Hsame Hfree.
      induction IH as [|m messages Hm _ IHmessages];
        intros [|m' messages'] Hsame Hfree; try discriminate; [done|].
      simpl in Hfree. apply andb_prop in Hsame as [Hsame1 Hsame2].
      apply andb_prop in Hfree as [Hfree1 Hfree2].
      rewrite fmap_cons. cbn [each].
      rewrite (Hm m') by done. rewrite (IHmessages messages') by done. done.
  - intros z ->. split.
    + simpl. by rewrite biginteger_of_string_str.
    + simpl. apply biginteger_str_decimal.
Qed.

End MessageFacts.

Section MessageExamples.
#[local] Existing Instance Zp_group.
#[local] Existing Instance netstring_framing.

(** In the group of the sample no text of an element has a colon: there
    every message is read back as it was. *)
Lemma Zp_colon_free (m : SigmaProtocolMsg) : colon_free m = true.
Proof.
  induction m as [element|z|a b|messages IH] using SigmaProtocolMsg_nested_ind;
    simpl; [done|done|apply free_of_colon_biginteger_str|].
  apply forallb_forall. intros m Hm. rewrite Forall_forall in IH.
  apply IH. by apply list_elem_of_In.
Qed.

Lemma message_read_back_witness :
  let m :=
    SigmaMultipleMsg [SigmaGroupElementMsg 8; SigmaDHMsg 9 4; SigmaBIMsg (-100);
                      SigmaMultipleMsg [SigmaBIMsg 7]] in
  let this :=
    SigmaMultipleMsg [SigmaGroupElementMsg 1; SigmaDHMsg 1 1; SigmaBIMsg_default;
                      SigmaMultipleMsg [SigmaBIMsg_default]] in
  GroupLaws /\ FramingLaws /\
  same_classes this m = true /\ colon_free m = true /\
  toString m = "1:83:9:44:-1003:1:7"%string /\
  initFromString this (toString m) = Some m.
Proof.
  intros m this.
  split; [exact Zp_group_laws|]. split; [exact netstring_framing_laws|].
  split; [reflexivity|]. split; [reflexivity|]. split; [reflexivity|].
  exact (proj1 (@message_read_back Zp_group netstring_framing Zp_group_laws
                  netstring_framing_laws m) this eq_refl eq_refl).
Defined.

End MessageExamples.

Section TextMessageExamples.
#[local] Existing Instance text_group.
#[local] Existing Instance netstring_framing.

(** C7, refuted as stated. Where the text of a group element may hold a
    colon, the DH message of the elements [1:2] and [3] is written as
    [1:2:3] and read back, split at the first colon, as the message of [1]
    and [2:3], which is written as the same text. *)
Lemma DH_message_with_colon_not_read_back :
  let m := SigmaDHMsg "1:2"%string "3"%string in
  let this := SigmaDHMsg ""%string ""%string in
  let m' := SigmaDHMsg "1"%string "2:3"%string in
  toString m = "1:2:3"%string /\
  initFromString this (toString m) = Some m' /\
  initFromString this (toString m) <> Some m /\
  toString m' = toString m.
Proof.
  repeat split; try reflexivity. discriminate.
Qed.

End TextMessageExamples.

(** * Further properties of the AND composition *)

(** ** The AND verifier: refusals, rejections and what is read *)

Section MoreVerifierFacts.
Context {group : Group} {randomness : Randomness}.

Lemma ANDVerifier_new_built verifiers t v :
  SigmaANDVerifierComputation.new verifiers t = Ret v -> ANDVerifier_built v.
Proof.
  intros Hnew. pose proof (ANDVerifier_new_Ret_inv _ _ _ Hnew) as ->.
  split; [done|]. simpl. unfold SigmaANDVerifierComputation.new in Hnew.
  destruct (SigmaANDVerifierComputation.check_t verifiers t) eqn:Hcheck; try discriminate.
  clear Hnew. induction verifiers as [|verifier verifiers IH]; [constructor|].
  simpl in Hcheck.
  destruct (Z.eqb_spec t (SigmaVerifierComputation.getSoundnessParam verifier));
    simpl in Hcheck; [|discriminate].
  constructor; [done|by apply IH].
Qed.

Lemma verify_logged_built (v : SigmaANDVerifierComputation.object)
  inputs firstMessages secondMessages :
  ANDVerifier_built v ->
  size (SigmaANDVerifierComputation.verifiers v) <= INT_MAX ->
  length inputs = length (SigmaANDVerifierComputation.verifiers v) ->
  SigmaANDVerifierComputation.verify_logged v (Some (SigmaANDCommonInput inputs))
    (Some (SigmaMultipleMsg firstMessages)) (Some (SigmaMultipleMsg secondMessages)) =
  SigmaANDVerifierComputation.verify_loop (SigmaANDVerifierComputation.verifiers v)
    inputs firstMessages secondMessages
    (seq 0 (length (SigmaANDVerifierComputation.verifiers v))) true [].
Proof.
  intros [Hlen _] Hmax Hi.
  unfold SigmaANDVerifierComputation.verify_logged,
    SigmaANDVerifierComputation.checkInput.
  rewrite Hlen. unfold size at 1. rewrite Hi.
  fold (size (SigmaANDVerifierComputation.verifiers v)).
  rewrite Z.eqb_refl. simpl. by rewrite to_int_size, indices_size.
Qed.

(** X1. Handed an AND common input whose number of inputs is not the number
    of its verifiers, [verify] throws [invalid_argument] without calling any
    verifier, whatever the two message pointers are (null included). *)
Theorem and_verify_refuses_input_count (v : SigmaANDVerifierComputation.object)
  (inputs : list SigmaCommonInput) (a z : option SigmaProtocolMsg) :
  ANDVerifier_built v ->
  size (SigmaANDVerifierComputation.verifiers v) <= INT_MAX ->
  size inputs <= INT_MAX ->
  length inputs <> length (SigmaANDVerifierComputation.verifiers v) ->
  SigmaANDVerifierComputation.verify_logged v (Some (SigmaANDCommonInput inputs)) a z
  = (Throw (by_value (invalid_argument
       "number of inputs is different from number of underlying verifiers.")), []).
Proof.
  intros [Hlen _] Hmax Hin Hne.
  unfold SigmaANDVerifierComputation.verify_logged,
    SigmaANDVerifierComputation.checkInput.
  rewrite Hlen, !to_int_size by done.
  destruct (Z.eqb_spec (size inputs) (size (SigmaANDVerifierComputation.verifiers v)))
    as [Heq|_]; [|done].
  unfold size in Heq. lia.
Qed.

(** The outcome of the loop other than true is that of the first verifier
    that does not return true. *)
Lemma verify_loop_first_failure verifiers inputs firstMessages secondMessages
  (o : outcome bool) (n s : nat) log :
  o <> Ret true ->
  length inputs = length verifiers ->
  length firstMessages = length verifiers ->
  length secondMessages = length verifiers ->
  (s + n <= length verifiers)%nat ->
  (SigmaANDVerifierComputation.verify_loop verifiers inputs firstMessages secondMessages
     (seq s n) true log).1 = o <->
  exists k : nat,
    (s <= k < s + n)%nat /\
    returns_at verifiers inputs firstMessages secondMessages k o /\
    forall j : nat, (s <= j < k)%nat ->
      accepts_at verifiers inputs firstMessages secondMessages j.
Proof.
  intros Ho Hi Ha Hz. revert s log. induction n as [|n IH]; intros s log Hs; simpl.
  - split; [by intros <-|]. intros (k & Hk & _). lia.
  - destruct (lookup_lt_is_Some_2 verifiers s) as [verifier Hv]; [lia|].
    destruct (lookup_lt_is_Some_2 inputs s) as [input Hin]; [lia|].
    destruct (lookup_lt_is_Some_2 firstMessages s) as [a Hfirst]; [lia|].
    destruct (lookup_lt_is_Some_2 secondMessages s) as [z Hsecond]; [lia|].
    rewrite Hv, Hin, Hfirst, Hsecond.
    assert (Hhere : forall o', returns_at verifiers inputs firstMessages secondMessages s o' ->
              SigmaVerifierComputation.verify verifier (Some input) (Some a) (Some z) = o').
    { intros o' (?&?&?&?&?&?&?&?&?). congruence. }
    assert (Hstop : forall r,
              SigmaVerifierComputation.verify verifier (Some input) (Some a) (Some z) = r ->
              r <> Ret true ->
              r = o <->
              exists k : nat,
                (s <= k < s + S n)%nat /\
                returns_at verifiers inputs firstMessages secondMessages k o /\
                forall j : nat, (s <= j < k)%nat ->
                  accepts_at verifiers inputs firstMessages secondMessages j).
    { intros r Hr Hnot. split.
      - intros <-. exists s. split; [lia|]. split; [by exists verifier, input, a, z|].
        intros j Hj. lia.
      - intros (k & Hk & Hret & Hbefore).
        destruct (decide (k = s)) as [->|Hne]; [by rewrite <- (Hhere o Hret)|].
        destruct (Hbefore s) as (?&?&?&?&?&?&?&?&?); [lia|]. congruence. }
    destruct (SigmaVerifierComputation.verify verifier (Some input) (Some a) (Some z))
      as [[|]| |] eqn:Hverify.
    + rewrite IH by lia. split.
      * intros (k & Hk & Hret & Hbefore). exists k. split; [lia|]. split; [done|].
        intros j Hj. destruct (decide (j = s)) as [->|Hne].
        -- by exists verifier, input, a, z.
        -- apply Hbefore. lia.
      * intros (k & Hk & Hret & Hbefore).
        assert (k <> s) by (intros ->; apply Hhere in Hret; congruence).
        exists k. split; [lia|]. split; [done|]. intros j Hj. apply Hbefore. lia.
    + rewrite verify_loop_false. by apply Hstop.
    + by apply Hstop.
    + by apply Hstop.
Qed.

(** X2. On an AND common input of [N] inputs and two compound messages of
    [N] messages each, [verify] of an AND verifier over [N] verifiers has an
    outcome [o] other than true (false, an exception thrown, undefined
    behaviour) if and only if [o] is the outcome of the first underlying
    verifier, in the order of the indices, that does not return true. *)
Theorem and_verify_outcome_of_first_failure (v : SigmaANDVerifierComputation.object)
  (inputs : list SigmaCommonInput) (firstMessages secondMessages : list SigmaProtocolMsg)
  (o : outcome bool) :
  let verifiers := SigmaANDVerifierComputation.verifiers v in
  ANDVerifier_built v ->
  size verifiers <= INT_MAX ->
  length inputs = length verifiers ->
  length firstMessages = length verifiers ->
  length secondMessages = length verifiers ->
  o <> Ret true ->
  SigmaANDVerifierComputation.verify v (Some (SigmaANDCommonInput inputs))
    (Some (SigmaMultipleMsg firstMessages)) (Some (SigmaMultipleMsg secondMessages)) = o
  <->
  exists k : nat,
    (k < length verifiers)%nat /\
    returns_at verifiers inputs firstMessages secondMessages k o /\
    forall j : nat, (j < k)%nat ->
      accepts_at verifiers inputs firstMessages secondMessages j.
Proof.
  intros verifiers Hbuilt Hmax Hi Ha Hz Ho. subst verifiers.
  unfold SigmaANDVerifierComputation.verify.
  rewrite verify_logged_built by done.
  rewrite (verify_loop_first_failure _ _ _ _ o _ 0 [] Ho Hi Ha Hz) by (simpl; lia).
  split; intros (k & Hk & Hret & Hbefore); exists k; (split; [lia|]); (split; [done|]);
    intros j Hj; apply Hbefore; lia.
Qed.

End MoreVerifierFacts.

Section MoreVerifierFacts2.
Context {group : Group} {randomness : Randomness}.

Lemma verify_loop_ext verifiers inputs firstMessages secondMessages
  firstMessages' secondMessages' todo verified log :
  (forall i : nat, i ∈ todo ->
     firstMessages !! i = firstMessages' !! i /\ secondMessages !! i = secondMessages' !! i) ->
  SigmaANDVerifierComputation.verify_loop verifiers inputs firstMessages secondMessages
    todo verified log =
  SigmaANDVerifierComputation.verify_loop verifiers inputs firstMessages' secondMessages'
    todo verified log.
Proof.
  revert verified log. induction todo as [|i todo IH]; intros verified log Hsame;
    simpl; [done|].
  destruct (Hsame i) as [<- <-]; [by left|].
  assert (Hrest : forall b log',
    SigmaANDVerifierComputation.verify_loop verifiers inputs firstMessages secondMessages
      todo b log' =
    SigmaANDVerifierComputation.verify_loop verifiers inputs firstMessages' secondMessages'
      todo b log').
  { intros b log'. apply IH. intros j Hj. apply Hsame. by right. }
  destruct verified; [|apply Hrest].
  destruct (verifiers !! i), (inputs !! i), (firstMessages !! i), (secondMessages !! i);
    try done.
  destruct (SigmaVerifierComputation.verify _ _ _ _); [apply Hrest|done|done].
Qed.

(** X3. [verify] does not compare the number of the sub-messages with the
    number [N] of its verifiers: it reads the first [N] messages of each
    compound message, and whatever follows them changes neither its outcome
    nor the verifiers it calls. *)
Theorem and_verify_reads_first_N_messages (v : SigmaANDVerifierComputation.object)
  (input : option SigmaCommonInput) (firstMessages secondMessages : list SigmaProtocolMsg) :
  let N := length (SigmaANDVerifierComputation.verifiers v) in
  ANDVerifier_built v ->
  size (SigmaANDVerifierComputation.verifiers v) <= INT_MAX ->
  SigmaANDVerifierComputation.verify_logged v input
    (Some (SigmaMultipleMsg firstMessages)) (Some (SigmaMultipleMsg secondMessages)) =
  SigmaANDVerifierComputation.verify_logged v input
    (Some (SigmaMultipleMsg (take N firstMessages)))
    (Some (SigmaMultipleMsg (take N secondMessages))).
Proof.
  intros N [Hlen _] Hmax. unfold SigmaANDVerifierComputation.verify_logged.
  destruct (SigmaANDVerifierComputation.checkInput v input); [|done..]. simpl.
  apply verify_loop_ext. intros i Hi.
  rewrite Hlen, to_int_size, indices_size in Hi by done.
  apply elem_of_seq in Hi. by rewrite !lookup_take_lt by (unfold N; lia).
Qed.

Lemma verify_loop_too_few verifiers inputs firstMessages secondMessages (n s : nat) log :
  let k := min (length firstMessages) (length secondMessages) in
  length inputs = length verifiers ->
  (s <= k < s + n)%nat ->
  (s + n <= length verifiers)%nat ->
  (forall j : nat, (s <= j < k)%nat ->
     accepts_at verifiers inputs firstMessages secondMessages j) ->
  SigmaANDVerifierComputation.verify_loop verifiers inputs firstMessages secondMessages
    (seq s n) true log = (Undef, log ++ seq s (k - s)).
Proof.
  intros k Hi. revert s log. induction n as [|n IH]; intros s log Hk Hs Hacc; [lia|].
  simpl. destruct (decide (s = k)) as [Heq|Hne].
  - destruct (lookup_lt_is_Some_2 verifiers s) as [verifier ->]; [lia|].
    destruct (lookup_lt_is_Some_2 inputs s) as [input ->]; [lia|].
    replace (k - s)%nat with 0%nat by lia. simpl. rewrite app_nil_r.
    destruct (decide (length firstMessages <= s)%nat) as [Hfirst|Hfirst].
    + apply lookup_ge_None in Hfirst. by rewrite Hfirst.
    + assert (Hsecond : secondMessages !! s = None) by (apply lookup_ge_None; lia).
      rewrite Hsecond. by destruct (firstMessages !! s).
  - destruct (Hacc s) as (verifier & input & a & z & -> & -> & -> & -> & Hverify); [lia|].
    rewrite Hverify. rewrite IH by first [lia | intros j Hj; apply Hacc; lia].
    unfold push_back. rewrite <- app_assoc. simpl.
    by replace (k - s)%nat with (S (k - S s)) by lia.
Qed.

(** X4. When a compound message holds fewer messages than the AND verifier
    has verifiers, and the verifiers before the first missing message
    return true, [verify] indexes the vector of messages out of its range:
    its behaviour is undefined, after it has called exactly the verifiers
    before the missing message. *)
Theorem and_verify_too_few_messages (v : SigmaANDVerifierComputation.object)
  (inputs : list SigmaCommonInput) (firstMessages secondMessages : list SigmaProtocolMsg) :
  let verifiers := SigmaANDVerifierComputation.verifiers v in
  let k := min (length firstMessages) (length secondMessages) in
  ANDVerifier_built v ->
  size verifiers <= INT_MAX ->
  length inputs = length verifiers ->
  (k < length verifiers)%nat ->
  (forall j : nat, (j < k)%nat ->
     accepts_at verifiers inputs firstMessages secondMessages j) ->
  SigmaANDVerifierComputation.verify_logged v (Some (SigmaANDCommonInput inputs))
    (Some (SigmaMultipleMsg firstMessages)) (Some (SigmaMultipleMsg secondMessages))
  = (Undef, seq 0 k).
Proof.
  intros verifiers k Hbuilt Hmax Hi Hk Hacc. subst verifiers.
  rewrite verify_logged_built by done.
  rewrite verify_loop_too_few; [|done|fold k; lia|simpl; lia|].
  - fold k. simpl. by rewrite Nat.sub_0_r.
  - intros j Hj. apply Hacc. fold k in Hj. lia.
Qed.

(** X5. What the constructor of the AND verifier establishes,
    [sampleChallenge] keeps: [len] is the number of the verifiers and every
    verifier has the soundness parameter [t]; [sampleChallenge] changes
    neither [t] nor [len] nor the number of the verifiers, and after it any
    two verifiers hold the same challenge. *)
Theorem sampleChallenge_keeps_what_is_built
  (verifiers : list SigmaVerifierComputation.object) (t : Z)
  (v : SigmaANDVerifierComputation.object) :
  SigmaANDVerifierComputation.new verifiers t = Ret v ->
  let v' := SigmaANDVerifierComputation.sampleChallenge v in
  ANDVerifier_built v /\ ANDVerifier_built v' /\
  SigmaANDVerifierComputation.t v' = t /\
  SigmaANDVerifierComputation.len v' = to_int (size verifiers) /\
  length (SigmaANDVerifierComputation.verifiers v') = length verifiers /\
  forall verifier1 verifier2,
    verifier1 ∈ SigmaANDVerifierComputation.verifiers v' ->
    verifier2 ∈ SigmaANDVerifierComputation.verifiers v' ->
    SigmaVerifierComputation.getChallenge verifier1 =
    SigmaVerifierComputation.getChallenge verifier2.
Proof.
  intros Hnew v'. pose proof (ANDVerifier_new_built _ _ _ Hnew) as Hbuilt.
  pose proof (ANDVerifier_new_Ret_inv _ _ _ Hnew) as Hv.
  assert (Hvs : SigmaANDVerifierComputation.verifiers v' =
                SigmaVerifierComputation.setChallenge
                  (gen_random_bytes_vector (t ÷ 8) get_seeded_random).1 <$> verifiers).
  { unfold v'. rewrite sampleChallenge_verifiers. by rewrite Hv. }
  assert (Ht : SigmaANDVerifierComputation.t v' = t /\
               SigmaANDVerifierComputation.len v' = to_int (size verifiers)).
  { unfold v', SigmaANDVerifierComputation.sampleChallenge. rewrite Hv. simpl.
    by destruct (gen_random_bytes_vector _ _). }
  destruct Ht as [Ht Hlen]. split; [done|]. split; [|split; [done|split; [done|split]]].
  - split.
    + rewrite Hlen, Hvs. unfold size. by rewrite length_fmap.
    + rewrite Ht, Hvs. apply Forall_fmap. destruct Hbuilt as [_ Hall].
      rewrite Hv in Hall. simpl in Hall.
      eapply Forall_impl; [exact Hall|]. by intros verifier.
  - by rewrite Hvs, length_fmap.
  - intros verifier1 verifier2. rewrite Hvs.
    intros (x1 & -> & _)%list_elem_of_fmap (x2 & -> & _)%list_elem_of_fmap. done.
Qed.

End MoreVerifierFacts2.

(** ** The AND simulator: refusals and failures *)

Section MoreSimulatorFacts.
Context {group : Group} {randomness : Randomness} {check : ANDLengthCheck}
        {World : Type}.

Lemma ANDSimulator_check_t_Ret (simulators : list (SigmaSimulator.object World)) t :
  SigmaANDSimulator.check_t simulators t = Ret () <->
  Forall (fun sim => SigmaSimulator.getSoundnessParam sim = t) simulators.
Proof.
  induction simulators as [|sim simulators IH]; simpl; [by split; [constructor|]|].
  rewrite Forall_cons.
  destruct (Z.eqb_spec t (SigmaSimulator.getSoundnessParam sim)) as [Heq|Hne]; simpl.
  - rewrite IH. by split; [intros ?; split|intros [_ ?]].
  - split; [done|]. by intros [? _].
Qed.

Lemma ANDSimulator_check_t_cases (simulators : list (SigmaSimulator.object World)) t :
  SigmaANDSimulator.check_t simulators t = Ret () \/
  SigmaANDSimulator.check_t simulators t =
  Throw (by_value (invalid_argument
    "the given t does not equal to one of the t values in the underlying simulators objects.")).
Proof.
  induction simulators as [|sim simulators IH]; simpl; [by left|].
  destruct (negb _); [by right|done].
Qed.

(** X6. The constructor of the AND simulator throws [invalid_argument], the
    object and not a pointer, exactly when the soundness parameter of some
    underlying simulator differs from [t]; otherwise it returns the
    simulator over the simulators given, with [t] and with their number as
    [len]. *)
Theorem ANDSimulator_constructor (simulators : list (SigmaSimulator.object World)) (t : Z) :
  (SigmaANDSimulator.new simulators t =
   Throw (by_value (invalid_argument
     "the given t does not equal to one of the t values in the underlying simulators objects."))
   <-> Exists (fun sim => SigmaSimulator.getSoundnessParam sim <> t) simulators) /\
  (SigmaANDSimulator.new simulators t =
   Ret {| SigmaANDSimulator.simulators := simulators;
          SigmaANDSimulator.len := to_int (size simulators);
          SigmaANDSimulator.t := t;
          SigmaANDSimulator.random := get_seeded_random |}
   <-> Forall (fun sim => SigmaSimulator.getSoundnessParam sim = t) simulators).
Proof.
  unfold SigmaANDSimulator.new.
  pose proof (ANDSimulator_check_t_Ret simulators t) as Hret.
  destruct (ANDSimulator_check_t_cases simulators t) as [Hc|Hc]; rewrite Hc; simpl.
  - pose proof (proj1 Hret Hc) as Hall. split; split; try done.
    intros (sim & Hin & Hne)%Exists_exists.
    rewrite Forall_forall in Hall. by destruct Hne; apply Hall.
  - assert (Hnot : ~ Forall (fun sim => SigmaSimulator.getSoundnessParam sim = t) simulators).
    { intros Hall. apply Hret in Hall. congruence. }
    split; split; try done.
    intros _. apply not_Forall_Exists; [intros sim; apply _|done].
Qed.

(** X7. Handed an AND common input whose number of inputs is not the number
    of its simulators, [simulate] calls no simulator and leaves the world as
    it was; it throws [invalid_argument] when its length check passes the
    challenge, and the cheat-attempt exception, which is tested first, when
    it does not. *)
Theorem and_simulate_refuses_input_count
  (simulators : list (SigmaSimulator.object World)) (t : Z)
  (s : SigmaANDSimulator.object World)
  (inputs : list SigmaCommonInput) (e : list byte) (w : World) :
  SigmaANDSimulator.new simulators t = Ret s ->
  size simulators <= INT_MAX ->
  size inputs <= INT_MAX ->
  length inputs <> length simulators ->
  SigmaANDSimulator.simulate s (Some (SigmaANDCommonInput inputs)) e w =
  (Throw (by_value
     (if checkChallengeLength t (to_int (size e))
      then invalid_argument
             "number of inputs is different from number of underlying simulators."
      else CheatAttemptException
             "the length of the given challenge is different from the soundness parameter")),
   w, []).
Proof.
  intros ->%ANDSimulator_new_Ret_inv Hmax Hin Hne.
  unfold SigmaANDSimulator.simulate. simpl.
  destruct (checkChallengeLength t (to_int (size e))); simpl; [|done].
  rewrite !to_int_size by done.
  destruct (Z.eqb_spec (size inputs) (size simulators)) as [Heq|_]; [|done].
  unfold size in Heq. lia.
Qed.

Lemma simulate_loop_failure challenge (pre : list (SigmaSimulator.object World))
  preInputs w outputs w1 :
  run_in_order challenge pre preInputs w outputs w1 ->
  forall failing input post postInputs x w2 done doneInputs aOutputs zOutputs log n,
    SigmaSimulator.simulate failing (Some input) challenge w1 = (Throw x, w2) ->
    length doneInputs = length done ->
    SigmaANDSimulator.simulate_loop (done ++ pre ++ failing :: post)
      (doneInputs ++ preInputs ++ input :: postInputs) challenge
      (seq (length done) (length pre + S n)) aOutputs zOutputs w log =
    (Throw x, w2,
     log ++ ((fun i => (i, challenge)) <$> seq (length done) (S (length pre)))).
Proof.
  induction 1 as [w|simulator simulators input0 inputs w w1 w' output outputs Hsim _ IH];
    intros failing input post postInputs x w2 done doneInputs aOutputs zOutputs log n
      Hfail Hlen.
  - simpl. rewrite list_lookup_middle by done. rewrite list_lookup_middle by done.
    by rewrite Hfail.
  - cbn [length Nat.add seq SigmaANDSimulator.simulate_loop app].
    rewrite list_lookup_middle by done. rewrite list_lookup_middle by done. rewrite Hsim.
    assert (Hlen' : length (doneInputs ++ [input0]) = length (done ++ [simulator]))
      by (rewrite !length_app; simpl; lia).
    specialize (IH failing input post postInputs x w2 (done ++ [simulator])
                  (doneInputs ++ [input0])
                  (push_back aOutputs (getA output)) (push_back zOutputs (getZ output))
                  (push_back log (length done, challenge)) n Hfail Hlen').
    replace (length (done ++ [simulator])) with (S (length done)) in IH
      by (rewrite length_app; simpl; lia).
    rewrite <- !app_assoc in IH. simpl in IH. rewrite IH.
    unfold push_back. rewrite <- !app_assoc. simpl. done.
Qed.

(** X8. When the simulators before some index return and the simulator at
    that index throws, [simulate] throws what that simulator has thrown: the
    simulators up to it have been called, each once and on the challenge,
    those after it are not called, and the world is as the throwing
    simulator left it. *)
Theorem and_simulate_rethrows
  (pre post : list (SigmaSimulator.object World)) (failing : SigmaSimulator.object World)
  (preInputs postInputs : list SigmaCommonInput) (input : SigmaCommonInput)
  (t : Z) (s : SigmaANDSimulator.object World) (e : list byte)
  (w w1 w2 : World) (outputs : list SigmaSimulatorOutput) (x : thrown) :
  let simulators := pre ++ failing :: post in
  SigmaANDSimulator.new simulators t = Ret s ->
  size simulators <= INT_MAX ->
  length postInputs = length post ->
  checkChallengeLength t (to_int (size e)) = true ->
  run_in_order e pre preInputs w outputs w1 ->
  SigmaSimulator.simulate failing (Some input) e w1 = (Throw x, w2) ->
  SigmaANDSimulator.simulate s
    (Some (SigmaANDCommonInput (preInputs ++ input :: postInputs))) e w =
  (Throw x, w2, (fun i => (i, e)) <$> seq 0 (S (length pre))).
Proof.
  intros simulators ->%ANDSimulator_new_Ret_inv Hmax Hpost Hcheck Hrun Hfail.
  destruct (run_in_order_length _ _ _ _ _ _ Hrun) as [Hpre _].
  unfold SigmaANDSimulator.simulate. simpl. rewrite Hcheck. simpl.
  assert (Hsize : size (preInputs ++ input :: postInputs) = size simulators).
  { unfold size, simulators. rewrite !length_app. simpl. lia. }
  rewrite Hsize, Z.eqb_refl. simpl.
  rewrite to_int_size, indices_size by done.
  unfold simulators at 2. rewrite length_app. simpl.
  pose proof (simulate_loop_failure e pre preInputs w outputs w1 Hrun
                failing input post postInputs x w2 [] [] [] [] [] (length post)
                Hfail eq_refl) as Hloop.
  simpl in Hloop. unfold simulators. by rewrite Hloop.
Qed.

End MoreSimulatorFacts.

(** ** The AND prover *)

Section MoreProverFacts.
Context {group : Group} {randomness : Randomness} {World : Type}.

Lemma ANDProver_new_Ret_inv (provers : list (SigmaProverComputation.object World)) t p :
  SigmaANDProverComputation.new provers t = Ret p ->
  p = {| SigmaANDProverComputation.provers := provers;
         SigmaANDProverComputation.len := to_int (size provers);
         SigmaANDProverComputation.t := t;
         SigmaANDProverComputation.random := get_seeded_random |}.
Proof.
  unfold SigmaANDProverComputation.new.
  destruct (SigmaANDProverComputation.check_t provers t); simpl; congruence.
Qed.

(** X9. The constructor of the AND prover throws [invalid_argument], the
    object and not a pointer, exactly when the soundness parameter of some
    underlying prover differs from [t]; otherwise it returns the prover
    over the provers given, with [t] and with their number as [len]. *)
Theorem ANDProver_constructor (provers : list (SigmaProverComputation.object World)) (t : Z) :
  (SigmaANDProverComputation.new provers t =
   Throw (by_value (invalid_argument
     "the given t does not equal to one of the t values in the underlying provers objects."))
   <-> Exists (fun p => SigmaProverComputation.getSoundnessParam p <> t) provers) /\
  (SigmaANDProverComputation.new provers t =
   Ret {| SigmaANDProverComputation.provers := provers;
          SigmaANDProverComputation.len := to_int (size provers);
          SigmaANDProverComputation.t := t;
          SigmaANDProverComputation.random := get_seeded_random |}
   <-> Forall (fun p => SigmaProverComputation.getSoundnessParam p = t) provers).
Proof.
  destruct (decide (Forall (fun p => SigmaProverComputation.getSoundnessParam p = t) provers))
    as [Hall|Hnot].
  - rewrite (ANDProver_new_Ret provers t Hall). split; split; try done.
    intros (prover & Hin & Hne)%Exists_exists.
    rewrite Forall_forall in Hall. by destruct Hne; apply Hall.
  - assert (Hex : Exists (fun p => SigmaProverComputation.getSoundnessParam p <> t) provers)
      by (apply not_Forall_Exists; [intros prover; apply _|done]).
    rewrite (ANDProver_new_Throw provers t Hex). split; split; done.
Qed.

(** X10. [computeFirstMsg] of the AND prover checks its input before it calls
    any prover: a null pointer or a prover input of another class, and an
    AND prover input whose number of inputs is not the number of the
    provers, are each refused with [invalid_argument], the world left as it
    was. *)
Theorem and_computeFirstMsg_refuses
  (provers : list (SigmaProverComputation.object World)) (t : Z)
  (p : SigmaANDProverComputation.object World) (w : World) :
  SigmaANDProverComputation.new provers t = Ret p ->
  size provers <= INT_MAX ->
  (forall input : option SigmaProverInput,
     (forall inputs, input <> Some (SigmaANDProverInput inputs)) ->
     SigmaANDProverComputation.computeFirstMsg p input w =
     (Throw (by_value (invalid_argument
        "the given input must be an instance of SigmaANDProverInput")), w)) /\
  (forall inputs : list SigmaProverInput,
     size inputs <= INT_MAX ->
     length inputs <> length provers ->
     SigmaANDProverComputation.computeFirstMsg p (Some (SigmaANDProverInput inputs)) w =
     (Throw (by_value (invalid_argument
        "number of inputs is different from number of underlying provers.")), w)).
Proof.
  intros ->%ANDProver_new_Ret_inv Hmax. split.
  - intros [[h x|h u v x|inputs]|] Hother; try done. by destruct (Hother inputs).
  - intros inputs Hin Hne.
    unfold SigmaANDProverComputation.computeFirstMsg, SigmaANDProverComputation.checkInput.
    simpl. rewrite !to_int_size by done.
    destruct (Z.eqb_spec (size inputs) (size provers)) as [Heq|_]; [|done].
    unfold size in Heq. lia.
Qed.

Lemma first_messages_in_order (rest : list (SigmaProverComputation.object World))
  restInputs w messages w' :
  first_in_order rest restInputs w messages w' ->
  forall done doneInputs firstMessages,
    length doneInputs = length done ->
    SigmaANDProverComputation.first_messages (done ++ rest) (doneInputs ++ restInputs)
      (seq (length done) (length rest)) firstMessages w =
    (Ret (firstMessages ++ messages), w').
Proof.
  induction 1 as [w|prover provers input inputs w w1 w' m messages Hfirst _ IH];
    intros done doneInputs firstMessages Hlen.
  - simpl. by rewrite app_nil_r.
  - simpl. rewrite list_lookup_middle by done.
    rewrite list_lookup_middle by done. rewrite Hfirst.
    assert (Hlen' : length (doneInputs ++ [input]) = length (done ++ [prover]))
      by (rewrite !length_app; simpl; lia).
    specialize (IH (done ++ [prover]) (doneInputs ++ [input])
                  (push_back firstMessages m) Hlen').
    replace (length (done ++ [prover])) with (S (length done)) in IH
      by (rewrite length_app; simpl; lia).
    rewrite <- !app_assoc in IH. simpl in IH. rewrite IH.
    unfold push_back. by rewrite <- !app_assoc.
Qed.

Lemma first_in_order_length (provers : list (SigmaProverComputation.object World))
  inputs w messages w' :
  first_in_order provers inputs w messages w' ->
  length inputs = length provers /\ length messages = length provers.
Proof.
  induction 1; simpl; [done|]. lia.
Qed.

Lemma and_computeFirstMsg_in_order
  (provers : list (SigmaProverComputation.object World)) (t : Z)
  (inputs : list SigmaProverInput) (w w' : World) (messages : list SigmaProtocolMsg) :
  size provers <= INT_MAX ->
  first_in_order provers inputs w messages w' ->
  SigmaANDProverComputation.computeFirstMsg
    {| SigmaANDProverComputation.provers := provers;
       SigmaANDProverComputation.len := to_int (size provers);
       SigmaANDProverComputation.t := t;
       SigmaANDProverComputation.random := get_seeded_random |}
    (Some (SigmaANDProverInput inputs)) w
  = (Ret (SigmaMultipleMsg messages), w').
Proof.
  intros Hmax Hrun. destruct (first_in_order_length _ _ _ _ _ Hrun) as [Hi _].
  unfold SigmaANDProverComputation.computeFirstMsg, SigmaANDProverComputation.checkInput.
  simpl. unfold size at 1. rewrite Hi. fold (size provers). rewrite Z.eqb_refl. simpl.
  rewrite to_int_size, indices_size by done.
  pose proof (first_messages_in_order provers inputs w messages w' Hrun [] [] [] eq_refl)
    as Hloop.
  simpl in Hloop. by rewrite Hloop.
Qed.

(** X11. When the underlying provers, called in order on the prover inputs
    at their indices, return their first messages, [computeFirstMsg] of the
    AND prover built over them returns the compound message of these
    messages in order, as many as there are provers, and leaves the world as
    the last prover left it. *)
Theorem and_computeFirstMsg_collects
  (provers : list (SigmaProverComputation.object World)) (t : Z)
  (p : SigmaANDProverComputation.object World)
  (inputs : list SigmaProverInput) (w w' : World) (messages : list SigmaProtocolMsg) :
  SigmaANDProverComputation.new provers t = Ret p ->
  size provers <= INT_MAX ->
  first_in_order provers inputs w messages w' ->
  SigmaANDProverComputation.computeFirstMsg p (Some (SigmaANDProverInput inputs)) w
  = (Ret (SigmaMultipleMsg messages), w') /\
  length messages = length provers.
Proof.
  intros ->%ANDProver_new_Ret_inv Hmax Hrun.
  split; [by apply and_computeFirstMsg_in_order|].
  by destruct (first_in_order_length _ _ _ _ _ Hrun).
Qed.

Lemma second_messages_in_order challenge
  (provers : list (SigmaProverComputation.object World)) w messages w' :
  second_in_order challenge provers w messages w' ->
  forall secondMessages,
    SigmaANDProverComputation.second_messages provers challenge secondMessages w =
    (Ret (secondMessages ++ messages), w').
Proof.
  induction 1 as [w|prover provers w w1 w' m messages Hsecond _ IH]; intros secondMessages.
  - simpl. by rewrite app_nil_r.
  - simpl. rewrite Hsecond, IH. unfold push_back. by rewrite <- app_assoc.
Qed.

Lemma second_messages_Ret_inv challenge
  (provers : list (SigmaProverComputation.object World)) :
  forall secondMessages w result w',
    SigmaANDProverComputation.second_messages provers challenge secondMessages w =
    (Ret result, w') ->
    exists messages,
      result = secondMessages ++ messages /\
      second_in_order challenge provers w messages w'.
Proof.
  induction provers as [|prover provers IH]; intros secondMessages w result w'; simpl.
  - intros [= <- <-]. exists []. rewrite app_nil_r. split; [done|constructor].
  - destruct (SigmaProverComputation.computeSecondMsg prover challenge w)
      as [[m| |] w1] eqn:Hsecond; try discriminate.
    intros (messages & -> & Hrun)%IH. exists (m :: messages).
    unfold push_back. rewrite <- app_assoc. split; [done|by econstructor].
Qed.

(** X12. [computeSecondMsg] of the AND prover returns a message exactly when
    the underlying provers, called in order and all on the challenge it was
    handed, return their second messages: the message is then the compound
    message of these, in order, and the world is as the last prover left
    it. *)
Theorem and_computeSecondMsg_collects (p : SigmaANDProverComputation.object World)
  (challenge : list byte) (w w' : World) (m : SigmaProtocolMsg) :
  SigmaANDProverComputation.computeSecondMsg p challenge w = (Ret m, w') <->
  exists messages,
    m = SigmaMultipleMsg messages /\
    second_in_order challenge (SigmaANDProverComputation.provers p) w messages w'.
Proof.
  unfold SigmaANDProverComputation.computeSecondMsg. split.
  - destruct (SigmaANDProverComputation.second_messages _ _ _ _) as [[result| |] w1]
      eqn:Hloop; try discriminate.
    intros [= <- <-]. apply second_messages_Ret_inv in Hloop as (messages & -> & Hrun).
    by exists messages.
  - intros (messages & -> & Hrun).
    by rewrite (second_messages_in_order _ _ _ _ _ Hrun []).
Qed.

Lemma second_messages_failure challenge
  (pre : list (SigmaProverComputation.object World)) w messages w1 :
  second_in_order challenge pre w messages w1 ->
  forall failing post x w2 secondMessages,
    SigmaProverComputation.computeSecondMsg failing challenge w1 = (Throw x, w2) ->
    SigmaANDProverComputation.second_messages (pre ++ failing :: post) challenge
      secondMessages w = (Throw x, w2).
Proof.
  induction 1 as [w|prover provers w w1 w' m messages Hsecond _ IH];
    intros failing post x w2 secondMessages Hfail; simpl.
  - by rewrite Hfail.
  - rewrite Hsecond. by apply IH.
Qed.

(** X13. [computeSecondMsg] of the AND prover checks nothing itself: when the
    provers before some index return and the prover at that index throws
    (the cheat-attempt exception on a challenge of the wrong length, say),
    it throws what that prover has thrown, the provers after it are not
    called, and the world is as the throwing prover left it. *)
Theorem and_computeSecondMsg_rethrows
  (pre post : list (SigmaProverComputation.object World))
  (failing : SigmaProverComputation.object World)
  (p : SigmaANDProverComputation.object World) (challenge : list byte)
  (w w1 w2 : World) (messages : list SigmaProtocolMsg) (x : thrown) :
  SigmaANDProverComputation.provers p = pre ++ failing :: post ->
  second_in_order challenge pre w messages w1 ->
  SigmaProverComputation.computeSecondMsg failing challenge w1 = (Throw x, w2) ->
  SigmaANDProverComputation.computeSecondMsg p challenge w = (Throw x, w2).
Proof.
  intros Hp Hrun Hfail. unfold SigmaANDProverComputation.computeSecondMsg.
  by rewrite Hp, (second_messages_failure _ _ _ _ _ Hrun failing post x w2 [] Hfail).
Qed.

(** X14. [getSimulator] of an AND prover built with [t] hands the simulators
    of its provers, in order, to the constructor of the AND simulator: it
    returns the AND simulator over them, with the same [t] and [len], when
    every one of them has the soundness parameter [t], and throws that
    constructor's [invalid_argument] when one has not. *)
Theorem and_getSimulator (provers : list (SigmaProverComputation.object World)) (t : Z)
  (p : SigmaANDProverComputation.object World) :
  SigmaANDProverComputation.new provers t = Ret p ->
  let simulators := SigmaProverComputation.getSimulator <$> provers in
  (Forall (fun sim => SigmaSimulator.getSoundnessParam sim = t) simulators ->
   SigmaANDProverComputation_getSimulator p =
   Ret {| SigmaANDSimulator.simulators := simulators;
          SigmaANDSimulator.len := SigmaANDProverComputation.len p;
          SigmaANDSimulator.t := t;
          SigmaANDSimulator.random := get_seeded_random |}) /\
  (Exists (fun sim => SigmaSimulator.getSoundnessParam sim <> t) simulators ->
   SigmaANDProverComputation_getSimulator p =
   Throw (by_value (invalid_argument
     "the given t does not equal to one of the t values in the underlying simulators objects."))).
Proof.
  intros ->%ANDProver_new_Ret_inv simulators.
  unfold SigmaANDProverComputation_getSimulator. simpl.
  rewrite fold_left_push_back. simpl. fold simulators.
  unfold SigmaANDSimulator.new.
  pose proof (ANDSimulator_check_t_Ret simulators t) as Hret.
  split.
  - intros Hall. apply Hret in Hall. rewrite Hall. simpl.
    unfold simulators, size. by rewrite length_fmap.
  - intros (sim & Hin & Hne)%Exists_exists.
    destruct (ANDSimulator_check_t_cases simulators t) as [Hc|Hc]; [|by rewrite Hc].
    apply Hret in Hc. rewrite Forall_forall in Hc. by destruct Hne; apply Hc.
Qed.

End MoreProverFacts.

(** ** Prover, simulator and verifier together *)

Section CompositionFacts.
Context {group : Group} {randomness : Randomness}.

Lemma sampleChallenge_of_new verifiers t v :
  SigmaANDVerifierComputation.new verifiers t = Ret v ->
  SigmaANDVerifierComputation.sampleChallenge v =
  {| SigmaANDVerifierComputation.verifiers :=
       SigmaVerifierComputation.setChallenge
         (gen_random_bytes_vector (t ÷ 8) get_seeded_random).1 <$> verifiers;
     SigmaANDVerifierComputation.len := to_int (size verifiers);
     SigmaANDVerifierComputation.t := t;
     SigmaANDVerifierComputation.random :=
       (gen_random_bytes_vector (t ÷ 8) get_seeded_random).2 |}.
Proof.
  intros ->%ANDVerifier_new_Ret_inv.
  unfold SigmaANDVerifierComputation.sampleChallenge. simpl.
  by destruct (gen_random_bytes_vector _ _).
Qed.

Lemma verify_on_challenge_true_iff verifiers t random e
  inputs firstMessages secondMessages :
  size verifiers <= INT_MAX ->
  length inputs = length verifiers ->
  length firstMessages = length verifiers ->
  length secondMessages = length verifiers ->
  SigmaANDVerifierComputation.verify
    {| SigmaANDVerifierComputation.verifiers :=
         SigmaVerifierComputation.setChallenge e <$> verifiers;
       SigmaANDVerifierComputation.len := to_int (size verifiers);
       SigmaANDVerifierComputation.t := t;
       SigmaANDVerifierComputation.random := random |}
    (Some (SigmaANDCommonInput inputs))
    (Some (SigmaMultipleMsg firstMessages)) (Some (SigmaMultipleMsg secondMessages))
  = Ret true <->
  forall (i : nat) verifier input a z,
    verifiers !! i = Some verifier -> inputs !! i = Some input ->
    firstMessages !! i = Some a -> secondMessages !! i = Some z ->
    SigmaVerifierComputation.accepts verifier e (Some input) (Some a) (Some z) = Ret true.
Proof.
  intros Hmax Hi Ha Hz.
  set (verifiers' := SigmaVerifierComputation.setChallenge e <$> verifiers).
  assert (Hlen : length verifiers' = length verifiers) by apply length_fmap.
  unfold SigmaANDVerifierComputation.verify,
    SigmaANDVerifierComputation.verify_logged, SigmaANDVerifierComputation.checkInput.
  simpl. unfold size. rewrite Hi, Z.eqb_refl. simpl.
  fold (size verifiers). rewrite to_int_size by done.
  rewrite indices_size, <- Hlen, verify_loop_true_iff, accepts_at_seq by lia.
  unfold verifiers'. split.
  - intros Hall i verifier input a z Hv Hin Hfirst Hsecond.
    apply (Hall i (SigmaVerifierComputation.setChallenge e verifier) input a z);
      [|done..].
    by rewrite list_lookup_fmap, Hv.
  - intros Hall i verifier' input a z Hv Hin Hfirst Hsecond.
    rewrite list_lookup_fmap in Hv.
    destruct (verifiers !! i) as [verifier|] eqn:Hv0; simplify_eq/=.
    by apply (Hall i verifier input a z).
Qed.

(** X15. The AND composition is complete where its parts are. The AND
    prover and the AND verifier are built with the same [t] over as many
    provers as verifiers; the verifier samples its challenge [e]; the
    provers return their first messages and, on [e], their second
    messages; every underlying verifier accepts, on [e] and on the common
    input of the prover input at its index, the two messages of the prover
    at its index. Then the AND prover returns the two compound messages of
    these and the AND verifier, on the common input of the AND prover
    input, returns true on them. *)
Theorem and_honest_proof_is_accepted {World : Type}
  (provers : list (SigmaProverComputation.object World))
  (verifiers : list SigmaVerifierComputation.object) (t : Z)
  (p : SigmaANDProverComputation.object World) (v : SigmaANDVerifierComputation.object)
  (inputs : list SigmaProverInput) (w0 w1 w2 : World)
  (firstMessages secondMessages : list SigmaProtocolMsg) :
  let e := (gen_random_bytes_vector (t ÷ 8) get_seeded_random).1 in
  SigmaANDProverComputation.new provers t = Ret p ->
  SigmaANDVerifierComputation.new verifiers t = Ret v ->
  size provers <= INT_MAX ->
  length verifiers = length provers ->
  first_in_order provers inputs w0 firstMessages w1 ->
  second_in_order e provers w1 secondMessages w2 ->
  (forall (i : nat) verifier input a z,
     verifiers !! i = Some verifier -> inputs !! i = Some input ->
     firstMessages !! i = Some a -> secondMessages !! i = Some z ->
     SigmaVerifierComputation.accepts verifier e
       (Some (getCommonInput input)) (Some a) (Some z) = Ret true) ->
  SigmaANDProverComputation.computeFirstMsg p (Some (SigmaANDProverInput inputs)) w0
  = (Ret (SigmaMultipleMsg firstMessages), w1) /\
  SigmaANDProverComputation.computeSecondMsg p e w1
  = (Ret (SigmaMultipleMsg secondMessages), w2) /\
  SigmaANDVerifierComputation.verify (SigmaANDVerifierComputation.sampleChallenge v)
    (Some (getCommonInput (SigmaANDProverInput inputs)))
    (Some (SigmaMultipleMsg firstMessages)) (Some (SigmaMultipleMsg secondMessages))
  = Ret true.
Proof.
  intros e Hp Hv Hmax Hlen Hfirst Hsecond Hacc.
  destruct (first_in_order_length _ _ _ _ _ Hfirst) as [Hi Ha].
  assert (Hz : length secondMessages = length provers).
  { clear -Hsecond. induction Hsecond; simpl; [done|lia]. }
  rewrite (sampleChallenge_of_new _ _ _ Hv).
  apply ANDProver_new_Ret_inv in Hp as ->.
  split; [by apply and_computeFirstMsg_in_order|]. split.
  - unfold SigmaANDProverComputation.computeSecondMsg. simpl.
    by rewrite (second_messages_in_order _ _ _ _ _ Hsecond []).
  - simpl. rewrite fold_left_push_back. simpl.
    apply verify_on_challenge_true_iff;
      [unfold size in *; lia|rewrite length_fmap; lia|lia|lia|].
    intros i verifier input a z Hverifier Hinput Hai Hzi.
    rewrite list_lookup_fmap in Hinput.
    destruct (inputs !! i) as [input0|] eqn:Hinput0; simplify_eq/=.
    by apply (Hacc i verifier input0 a z).
Qed.

(** X16. What the AND simulator produces, the AND verifier accepts, where
    that holds of their parts. The AND simulator and the AND verifier are
    built with the same [t] over as many simulators as verifiers; the
    verifier samples its challenge [e], which the length check of the
    simulator passes; the simulators return on [e]; every underlying
    verifier accepts, on [e], the two messages of the simulator at its
    index. Then [simulate] returns a transcript whose challenge is [e] and
    on whose two messages the AND verifier returns true. *)
Theorem and_simulated_transcript_is_accepted {World : Type} {check : ANDLengthCheck}
  (simulators : list (SigmaSimulator.object World))
  (verifiers : list SigmaVerifierComputation.object) (t : Z)
  (s : SigmaANDSimulator.object World) (v : SigmaANDVerifierComputation.object)
  (inputs : list SigmaCommonInput) (w w' : World) (outputs : list SigmaSimulatorOutput) :
  let e := (gen_random_bytes_vector (t ÷ 8) get_seeded_random).1 in
  SigmaANDSimulator.new simulators t = Ret s ->
  SigmaANDVerifierComputation.new verifiers t = Ret v ->
  size simulators <= INT_MAX ->
  length verifiers = length simulators ->
  checkChallengeLength t (to_int (size e)) = true ->
  run_in_order e simulators inputs w outputs w' ->
  (forall (i : nat) verifier input output,
     verifiers !! i = Some verifier -> inputs !! i = Some input ->
     outputs !! i = Some output ->
     SigmaVerifierComputation.accepts verifier e
       (Some input) (Some (getA output)) (Some (getZ output)) = Ret true) ->
  exists transcript,
    (SigmaANDSimulator.simulate s (Some (SigmaANDCommonInput inputs)) e w).1
    = (Ret transcript, w') /\
    getE transcript = e /\
    SigmaANDVerifierComputation.verify (SigmaANDVerifierComputation.sampleChallenge v)
      (Some (SigmaANDCommonInput inputs))
      (Some (getA transcript)) (Some (getZ transcript))
    = Ret true.
Proof.
  intros e ->%ANDSimulator_new_Ret_inv Hv Hmax Hlen Hcheck Hrun Hacc.
  destruct (run_in_order_length _ _ _ _ _ _ Hrun) as [Hi Ho].
  exists {| getA := SigmaMultipleMsg (getA <$> outputs);
            getE := e;
            getZ := SigmaMultipleMsg (getZ <$> outputs) |}.
  split; [|split; [done|]].
  - unfold SigmaANDSimulator.simulate. simpl. rewrite Hcheck. simpl.
    unfold size at 1. rewrite Hi. fold (size simulators). rewrite Z.eqb_refl. simpl.
    rewrite to_int_size, indices_size by done.
    pose proof (simulate_loop_in_order e simulators inputs w outputs w' Hrun
                  [] [] [] [] [] eq_refl) as Hloop.
    simpl in Hloop. by rewrite Hloop.
  - rewrite (sampleChallenge_of_new _ _ _ Hv). simpl.
    apply verify_on_challenge_true_iff;
      [unfold size in *; lia|lia|rewrite length_fmap; lia|rewrite length_fmap; lia|].
    intros i verifier input a z Hverifier Hinput Hai Hzi.
    rewrite list_lookup_fmap in Hai. rewrite list_lookup_fmap in Hzi.
    destruct (outputs !! i) as [output|] eqn:Houtput; simplify_eq/=.
    by apply (Hacc i verifier input output).
Qed.

End CompositionFacts.

(** ** Prover inputs and their common inputs *)

Section MoreInputFacts.
Context {group : Group}.

Lemma SigmaProverInput_nested_ind (P : SigmaProverInput -> Prop) :
  (forall h x, P (SigmaDlogProverInput h x)) ->
  (forall h u v x, P (SigmaDHProverInput h u v x)) ->
  (forall inputs, Forall P inputs -> P (SigmaANDProverInput inputs)) ->
  forall input, P input.
Proof.
  intros Hdlog Hdh Hand. fix IH 1. intros [h x|h u v x|inputs].
  - apply Hdlog.
  - apply Hdh.
  - apply Hand. induction inputs as [|input inputs IHinputs].
    + constructor.
    + constructor; [apply IH|apply IHinputs].
Qed.

Lemma getCommonInput_AND (inputs : list SigmaProverInput) :
  getCommonInput (SigmaANDProverInput inputs) =
  SigmaANDCommonInput (getCommonInput <$> inputs).
Proof.
  simpl. by rewrite fold_left_push_back.
Qed.

(** X17. The common input of a prover input holds nothing of the witnesses:
    two prover inputs, AND inputs nested to any depth included, have the same
    common input if and only if they have the same shape and the same group
    elements, whatever their witnesses. *)
Theorem getCommonInput_forgets_only_witnesses (input input' : SigmaProverInput) :
  getCommonInput input = getCommonInput input' <-> same_statement input input'.
Proof.
  revert input'.
  induction input as [h x|h u v x|inputs IH] using SigmaProverInput_nested_ind;
    intros [h' x'|h' u' v' x'|inputs']; rewrite ?getCommonInput_AND;
    try (simpl; split; [discriminate|done]).
  - simpl. split; [by intros [= ->]|by intros ->].
  - simpl. split; [by intros [= -> -> ->]|by intros (-> & -> & ->)].
  - cbn [same_statement].
    assert (getCommonInput <$> inputs = getCommonInput <$> inputs' <->
            slot_by_slot same_statement inputs inputs') as <-.
    { revert inputs'. induction IH as [|input inputs Hinput _ IHinputs];
        intros [|input' inputs']; rewrite ?fmap_cons; cbn [slot_by_slot];
        try (split; [discriminate|done]); [done|].
      split.
      - intros [= H1 H2]. split; [by apply Hinput|by apply IHinputs].
      - intros [H1 H2]. f_equal; [by apply Hinput|by apply IHinputs]. }
    split; [by intros [= ->]|by intros ->].
Qed.

End MoreInputFacts.

(** ** The text of a DH message *)

Section MoreMessageFacts.
Context {group : Group} {framing : Framing}.

(** X18. [toString] of [SigmaDHMsg] separates the two texts well enough to
    tell them apart when the first has no colon: two DH messages whose first
    elements have colon-free texts and whose texts are equal have first
    elements of equal text and second elements of equal text. *)
Theorem DH_toString_tells_apart (a b a' b' : GroupElementSendableData) :
  free_of ":" (ge_toString a) = true ->
  free_of ":" (ge_toString a') = true ->
  toString (SigmaDHMsg a b) = toString (SigmaDHMsg a' b') ->
  ge_toString a = ge_toString a' /\ ge_toString b = ge_toString b'.
Proof.
  intros Hfree Hfree' Heq. simpl in Heq.
  change (":" +:+ ge_toString b) with (String ":" (ge_toString b)) in Heq.
  change (":" +:+ ge_toString b') with (String ":" (ge_toString b')) in Heq.
  apply (f_equal (split_first ":")) in Heq.
  rewrite !split_first_append in Heq by done. by injection Heq.
Qed.

End MoreMessageFacts.

(** ** The challenge sampled and the DH length checks *)

Section MoreChallengeFacts.
Context {group : Group} {randomness : Randomness} {laws : RandomnessLaws}.

(** X19. For a soundness parameter [t] that is not negative, the challenge
    that [sampleChallenge] of an AND verifier sets in its verifiers passes
    the length checks of the DH simulator and of the DH prover computation
    with the same [t]; and it is the empty challenge when [t] is less than
    [8]. *)
Theorem sampled_challenge_passes_DH_checks
  (verifiers : list SigmaVerifierComputation.object) (t : Z)
  (v : SigmaANDVerifierComputation.object) (verifier : SigmaVerifierComputation.object) :
  SigmaANDVerifierComputation.new verifiers t = Ret v ->
  0 <= t <= INT_MAX ->
  verifier ∈ SigmaANDVerifierComputation.verifiers
               (SigmaANDVerifierComputation.sampleChallenge v) ->
  let e := SigmaVerifierComputation.getChallenge verifier in
  SigmaDHSimulator.checkChallengeLength t (to_int (size e)) = true /\
  SigmaDHProverComputation.checkChallengeLength t (to_int (size e)) = true /\
  (t < 8 -> e = []).
Proof.
  intros Hnew Ht. rewrite (sampleChallenge_of_new _ _ _ Hnew). simpl.
  intros (verifier0 & -> & _)%list_elem_of_fmap. simpl.
  pose proof (gen_random_bytes_vector_size (t ÷ 8) get_seeded_random) as Hlen.
  assert (Hq : 0 <= t ÷ 8 <= t).
  { rewrite Z.quot_div_nonneg by lia. split; [apply Z.div_pos; lia|].
    apply Z.div_le_upper_bound; lia. }
  assert (Hsize : to_int (size (gen_random_bytes_vector (t ÷ 8) get_seeded_random).1)
                  = t ÷ 8).
  { unfold size. rewrite Hlen, Z2Nat.id by lia. apply to_int_small.
    unfold INT_MAX in *. lia. }
  rewrite Hsize. unfold SigmaDHSimulator.checkChallengeLength,
    SigmaDHProverComputation.checkChallengeLength. rewrite Z.eqb_refl.
  split; [done|]. split; [done|]. intros Hsmall.
  assert (t ÷ 8 = 0) as Hzero by (apply Z.quot_small; lia).
  apply nil_length_inv. by rewrite Hlen, Hzero.
Qed.

End MoreChallengeFacts.

(** ** The further properties on the Schnorr examples *)

Section MoreVerifierExamples.
#[local] Existing Instance Zp_group.
#[local] Existing Instance tape_randomness.

Lemma two_Dlog_verifiers_on_05_built :
  ANDVerifier_built
    {| SigmaANDVerifierComputation.verifiers :=
         SigmaVerifierComputation.setChallenge [x05] <$>
           [Dlog_verifier G23 8; Dlog_verifier G23 8];
       SigmaANDVerifierComputation.len := 2;
       SigmaANDVerifierComputation.t := 8;
       SigmaANDVerifierComputation.random := 0%nat |}.
Proof.
  split; [reflexivity|]. repeat constructor.
Qed.

Lemma and_verify_refuses_input_count_witness :
  let v := {| SigmaANDVerifierComputation.verifiers :=
                SigmaVerifierComputation.setChallenge [x05] <$>
                  [Dlog_verifier G23 8; Dlog_verifier G23 8];
              SigmaANDVerifierComputation.len := 2;
              SigmaANDVerifierComputation.t := 8;
              SigmaANDVerifierComputation.random := 0%nat |} in
  let inputs := [SigmaDlogCommonInput 16] in
  ANDVerifier_built v /\
  size (SigmaANDVerifierComputation.verifiers v) <= INT_MAX /\
  size inputs <= INT_MAX /\
  length inputs <> length (SigmaANDVerifierComputation.verifiers v) /\
  SigmaANDVerifierComputation.verify_logged v (Some (SigmaANDCommonInput inputs)) None None
  = (Throw (by_value (invalid_argument
       "number of inputs is different from number of underlying verifiers.")), []).
Proof.
  intros v inputs.
  assert (Hmax : size (SigmaANDVerifierComputation.verifiers v) <= INT_MAX)
    by (vm_compute; discriminate).
  assert (Hin : size inputs <= INT_MAX) by (vm_compute; discriminate).
  assert (Hne : length inputs <> length (SigmaANDVerifierComputation.verifiers v))
    by (simpl; discriminate).
  split; [exact two_Dlog_verifiers_on_05_built|]. split; [exact Hmax|].
  split; [exact Hin|]. split; [exact Hne|].
  exact (and_verify_refuses_input_count v inputs None None
           two_Dlog_verifiers_on_05_built Hmax Hin Hne).
Defined.

Lemma and_verify_outcome_of_first_failure_witness :
  let v := {| SigmaANDVerifierComputation.verifiers :=
                SigmaVerifierComputation.setChallenge [x05] <$>
                  [Dlog_verifier G23 8; Dlog_verifier G23 8];
              SigmaANDVerifierComputation.len := 2;
              SigmaANDVerifierComputation.t := 8;
              SigmaANDVerifierComputation.random := 0%nat |} in
  let verifiers := SigmaANDVerifierComputation.verifiers v in
  let inputs := [SigmaDlogCommonInput 16; SigmaDlogCommonInput 13] in
  let firstMessages := [SigmaGroupElementMsg 8; SigmaGroupElementMsg 9] in
  let secondMessages := [SigmaBIMsg 2; SigmaBIMsg 7] in
  ANDVerifier_built v /\
  size verifiers <= INT_MAX /\
  length inputs = length verifiers /\
  length firstMessages = length verifiers /\
  length secondMessages = length verifiers /\
  Ret false <> Ret true /\
  (SigmaANDVerifierComputation.verify v (Some (SigmaANDCommonInput inputs))
     (Some (SigmaMultipleMsg firstMessages)) (Some (SigmaMultipleMsg secondMessages))
   = Ret false
   <->
   exists k : nat,
     (k < length verifiers)%nat /\
     returns_at verifiers inputs firstMessages secondMessages k (Ret false) /\
     forall j : nat, (j < k)%nat ->
       accepts_at verifiers inputs firstMessages secondMessages j).
Proof.
  intros v verifiers inputs firstMessages secondMessages.
  assert (Hmax : size verifiers <= INT_MAX) by (vm_compute; discriminate).
  assert (Hne : @Ret bool false <> Ret true) by discriminate.
  split; [exact two_Dlog_verifiers_on_05_built|]. split; [exact Hmax|].
  do 3 (split; [reflexivity|]). split; [exact Hne|].
  exact (and_verify_outcome_of_first_failure v inputs firstMessages secondMessages
           (Ret false) two_Dlog_verifiers_on_05_built Hmax eq_refl eq_refl eq_refl Hne).
Defined.

Lemma and_verify_reads_first_N_messages_witness :
  let v := {| SigmaANDVerifierComputation.verifiers :=
                SigmaVerifierComputation.setChallenge [x05] <$>
                  [Dlog_verifier G23 8; Dlog_verifier G23 8];
              SigmaANDVerifierComputation.len := 2;
              SigmaANDVerifierComputation.t := 8;
              SigmaANDVerifierComputation.random := 0%nat |} in
  let input := Some (SigmaANDCommonInput [SigmaDlogCommonInput 16; SigmaDlogCommonInput 13]) in
  ANDVerifier_built v /\
  size (SigmaANDVerifierComputation.verifiers v) <= INT_MAX /\
  SigmaANDVerifierComputation.verify_logged v input
    (Some (SigmaMultipleMsg [SigmaGroupElementMsg 8; SigmaGroupElementMsg 9;
                             SigmaGroupElementMsg 1]))
    (Some (SigmaMultipleMsg [SigmaBIMsg 1; SigmaBIMsg 7; SigmaBIMsg 0; SigmaBIMsg 0])) =
  SigmaANDVerifierComputation.verify_logged v input
    (Some (SigmaMultipleMsg [SigmaGroupElementMsg 8; SigmaGroupElementMsg 9]))
    (Some (SigmaMultipleMsg [SigmaBIMsg 1; SigmaBIMsg 7])).
Proof.
  intros v input.
  assert (Hmax : size (SigmaANDVerifierComputation.verifiers v) <= INT_MAX)
    by (vm_compute; discriminate).
  split; [exact two_Dlog_verifiers_on_05_built|]. split; [exact Hmax|].
  exact (and_verify_reads_first_N_messages v input
           [SigmaGroupElementMsg 8; SigmaGroupElementMsg 9; SigmaGroupElementMsg 1]
           [SigmaBIMsg 1; SigmaBIMsg 7; SigmaBIMsg 0; SigmaBIMsg 0]
           two_Dlog_verifiers_on_05_built Hmax).
Defined.

Lemma and_verify_too_few_messages_witness :
  let v := {| SigmaANDVerifierComputation.verifiers :=
                SigmaVerifierComputation.setChallenge [x05] <$>
                  [Dlog_verifier G23 8; Dlog_verifier G23 8];
              SigmaANDVerifierComputation.len := 2;
              SigmaANDVerifierComputation.t := 8;
              SigmaANDVerifierComputation.random := 0%nat |} in
  let verifiers := SigmaANDVerifierComputation.verifiers v in
  let inputs := [SigmaDlogCommonInput 16; SigmaDlogCommonInput 13] in
  let firstMessages := [SigmaGroupElementMsg 8] in
  let secondMessages := [SigmaBIMsg 1; SigmaBIMsg 7] in
  ANDVerifier_built v /\
  size verifiers <= INT_MAX /\
  length inputs = length verifiers /\
  (1 < length verifiers)%nat /\
  (forall j : nat, (j < 1)%nat ->
     accepts_at verifiers inputs firstMessages secondMessages j) /\
  SigmaANDVerifierComputation.verify_logged v (Some (SigmaANDCommonInput inputs))
    (Some (SigmaMultipleMsg firstMessages)) (Some (SigmaMultipleMsg secondMessages))
  = (Undef, [0%nat]).
Proof.
  intros v verifiers inputs firstMessages secondMessages.
  assert (Hmax : size verifiers <= INT_MAX) by (vm_compute; discriminate).
  assert (Hk : (1 < length verifiers)%nat) by (simpl; lia).
  assert (Hacc : forall j : nat, (j < 1)%nat ->
            accepts_at verifiers inputs firstMessages secondMessages j).
  { intros [|j] Hj; [|lia]. eexists _, _, _, _. repeat split; reflexivity. }
  split; [exact two_Dlog_verifiers_on_05_built|]. split; [exact Hmax|].
  split; [reflexivity|]. split; [exact Hk|]. split; [exact Hacc|].
  exact (and_verify_too_few_messages v inputs firstMessages secondMessages
           two_Dlog_verifiers_on_05_built Hmax eq_refl Hk Hacc).
Defined.

Lemma sampleChallenge_keeps_what_is_built_witness :
  let verifiers := [Dlog_verifier G23 8; Dlog_verifier G23 8] in
  let v := {| SigmaANDVerifierComputation.verifiers := verifiers;
              SigmaANDVerifierComputation.len := 2;
              SigmaANDVerifierComputation.t := 8;
              SigmaANDVerifierComputation.random := 0%nat |} in
  let v' := SigmaANDVerifierComputation.sampleChallenge v in
  SigmaANDVerifierComputation.new verifiers 8 = Ret v /\
  ANDVerifier_built v' /\
  SigmaANDVerifierComputation.t v' = 8 /\
  length (SigmaANDVerifierComputation.verifiers v') = length verifiers.
Proof.
  intros verifiers v v'.
  assert (Hnew : SigmaANDVerifierComputation.new verifiers 8 = Ret v) by reflexivity.
  destruct (sampleChallenge_keeps_what_is_built verifiers 8 v Hnew)
    as (_ & Hbuilt & Ht & _ & Hlength & _).
  split; [exact Hnew|]. split; [exact Hbuilt|]. split; [exact Ht|exact Hlength].
Defined.

End MoreVerifierExamples.

Section MoreSimulatorExamples.
#[local] Existing Instance Zp_group.
#[local] Existing Instance tape_randomness.
#[local] Existing Instance length_check_as_DH.

Lemma and_simulate_refuses_input_count_witness :
  let simulators := [Dlog_simulator G23 8; Dlog_simulator G23 8] in
  let s := {| SigmaANDSimulator.simulators := simulators;
              SigmaANDSimulator.len := 2;
              SigmaANDSimulator.t := 8;
              SigmaANDSimulator.random := 0%nat |} in
  let inputs := [SigmaDlogCommonInput 16] in
  SigmaANDSimulator.new simulators 8 = Ret s /\
  size simulators <= INT_MAX /\
  size inputs <= INT_MAX /\
  length inputs <> length simulators /\
  SigmaANDSimulator.simulate s (Some (SigmaANDCommonInput inputs)) [x05] 0%nat =
  (Throw (by_value (invalid_argument
     "number of inputs is different from number of underlying simulators.")),
   0%nat, []) /\
  SigmaANDSimulator.simulate s (Some (SigmaANDCommonInput inputs)) [x05; x05] 0%nat =
  (Throw (by_value (CheatAttemptException
     "the length of the given challenge is different from the soundness parameter")),
   0%nat, []).
Proof.
  intros simulators s inputs.
  assert (Hnew : SigmaANDSimulator.new simulators 8 = Ret s) by reflexivity.
  assert (Hmax : size simulators <= INT_MAX) by (vm_compute; discriminate).
  assert (Hin : size inputs <= INT_MAX) by (vm_compute; discriminate).
  assert (Hne : length inputs <> length simulators) by (simpl; discriminate).
  split; [exact Hnew|]. split; [exact Hmax|]. split; [exact Hin|]. split; [exact Hne|].
  split.
  - exact (and_simulate_refuses_input_count simulators 8 s inputs [x05] 0%nat
             Hnew Hmax Hin Hne).
  - exact (and_simulate_refuses_input_count simulators 8 s inputs [x05; x05] 0%nat
             Hnew Hmax Hin Hne).
Defined.

(** The second simulator is handed a DH common input, which it refuses. *)
Lemma and_simulate_rethrows_witness :
  let pre := [Dlog_simulator G23 8] in
  let failing := Dlog_simulator G23 8 in
  let simulators := pre ++ failing :: [] in
  let s := {| SigmaANDSimulator.simulators := simulators;
              SigmaANDSimulator.len := 2;
              SigmaANDSimulator.t := 8;
              SigmaANDSimulator.random := 0%nat |} in
  let e := [x05] in
  let x := by_value (invalid_argument "the given input is not as expected") in
  SigmaANDSimulator.new simulators 8 = Ret s /\
  size simulators <= INT_MAX /\
  checkChallengeLength 8 (to_int (size e)) = true /\
  run_in_order e pre [SigmaDlogCommonInput 16] 0%nat
    [{| getA := SigmaGroupElementMsg 13; getE := e; getZ := SigmaBIMsg 5 |}] 1%nat /\
  SigmaSimulator.simulate failing (Some (SigmaDHCommonInput 13 8 18)) e 1%nat
  = (Throw x, 1%nat) /\
  SigmaANDSimulator.simulate s
    (Some (SigmaANDCommonInput ([SigmaDlogCommonInput 16] ++ SigmaDHCommonInput 13 8 18 :: [])))
    e 0%nat
  = (Throw x, 1%nat, [(0%nat, e); (1%nat, e)]).
Proof.
  intros pre failing simulators s e x.
  assert (Hnew : SigmaANDSimulator.new simulators 8 = Ret s) by reflexivity.
  assert (Hmax : size simulators <= INT_MAX) by (vm_compute; discriminate).
  assert (Hcheck : checkChallengeLength 8 (to_int (size e)) = true) by reflexivity.
  assert (Hrun : run_in_order e pre [SigmaDlogCommonInput 16] 0%nat
            [{| getA := SigmaGroupElementMsg 13; getE := e; getZ := SigmaBIMsg 5 |}] 1%nat).
  { apply run_next with (w1 := 1%nat); [reflexivity|apply run_none]. }
  assert (Hfail : SigmaSimulator.simulate failing (Some (SigmaDHCommonInput 13 8 18)) e 1%nat
                  = (Throw x, 1%nat)) by reflexivity.
  split; [exact Hnew|]. split; [exact Hmax|]. split; [exact Hcheck|].
  split; [exact Hrun|]. split; [exact Hfail|].
  exact (and_simulate_rethrows pre [] failing [SigmaDlogCommonInput 16] []
           (SigmaDHCommonInput 13 8 18) 8 s e 0%nat 1%nat 1%nat _ x
           Hnew Hmax eq_refl Hcheck Hrun Hfail).
Defined.

Lemma and_simulated_transcript_is_accepted_witness :
  let simulators := [Dlog_simulator G23 8; Dlog_simulator G23 8] in
  let verifiers := [Dlog_verifier G23 8; Dlog_verifier G23 8] in
  let s := {| SigmaANDSimulator.simulators := simulators;
              SigmaANDSimulator.len := 2;
              SigmaANDSimulator.t := 8;
              SigmaANDSimulator.random := 0%nat |} in
  let v := {| SigmaANDVerifierComputation.verifiers := verifiers;
              SigmaANDVerifierComputation.len := 2;
              SigmaANDVerifierComputation.t := 8;
              SigmaANDVerifierComputation.random := 0%nat |} in
  let inputs := [SigmaDlogCommonInput 16; SigmaDlogCommonInput 13] in
  let e := [x05] in
  let outputs :=
    [ {| getA := SigmaGroupElementMsg 13; getE := e; getZ := SigmaBIMsg 5 |};
      {| getA := SigmaGroupElementMsg 13; getE := e; getZ := SigmaBIMsg 9 |} ] in
  SigmaANDSimulator.new simulators 8 = Ret s /\
  SigmaANDVerifierComputation.new verifiers 8 = Ret v /\
  run_in_order e simulators inputs 0%nat outputs 2%nat /\
  exists transcript,
    (SigmaANDSimulator.simulate s (Some (SigmaANDCommonInput inputs)) e 0%nat).1
    = (Ret transcript, 2%nat) /\
    getE transcript = e /\
    SigmaANDVerifierComputation.verify (SigmaANDVerifierComputation.sampleChallenge v)
      (Some (SigmaANDCommonInput inputs))
      (Some (getA transcript)) (Some (getZ transcript))
    = Ret true.
Proof.
  intros simulators verifiers s v inputs e outputs.
  assert (Hs : SigmaANDSimulator.new simulators 8 = Ret s) by reflexivity.
  assert (Hv : SigmaANDVerifierComputation.new verifiers 8 = Ret v) by reflexivity.
  assert (Hmax : size simulators <= INT_MAX) by (vm_compute; discriminate).
  assert (Hcheck : checkChallengeLength 8 (to_int (size e)) = true) by reflexivity.
  assert (Hrun : run_in_order e simulators inputs 0%nat outputs 2%nat).
  { apply run_next with (w1 := 1%nat); [reflexivity|].
    apply run_next with (w1 := 2%nat); [reflexivity|]. apply run_none. }
  assert (Hacc : forall (i : nat) verifier input output,
     verifiers !! i = Some verifier -> inputs !! i = Some input ->
     outputs !! i = Some output ->
     SigmaVerifierComputation.accepts verifier e
       (Some input) (Some (getA output)) (Some (getZ output)) = Ret true).
  { intros [|[|i]] verifier input output [= <-] [= <-] [= <-]; reflexivity. }
  split; [exact Hs|]. split; [exact Hv|]. split; [exact Hrun|].
  exact (and_simulated_transcript_is_accepted simulators verifiers 8 s v inputs
           0%nat 2%nat outputs Hs Hv Hmax eq_refl Hcheck Hrun Hacc).
Defined.

End MoreSimulatorExamples.

Section MoreProverExamples.
#[local] Existing Instance Zp_group.
#[local] Existing Instance tape_randomness.

Lemma and_computeFirstMsg_refuses_witness :
  let provers := [Dlog_prover G23 8 0; Dlog_prover G23 8 1] in
  let p := {| SigmaANDProverComputation.provers := provers;
              SigmaANDProverComputation.len := 2;
              SigmaANDProverComputation.t := 8;
              SigmaANDProverComputation.random := 0%nat |} in
  let w : ProverWorld := (0%nat, []) in
  SigmaANDProverComputation.new provers 8 = Ret p /\
  size provers <= INT_MAX /\
  SigmaANDProverComputation.computeFirstMsg p None w =
  (Throw (by_value (invalid_argument
     "the given input must be an instance of SigmaANDProverInput")), w) /\
  SigmaANDProverComputation.computeFirstMsg p (Some (SigmaDlogProverInput 16 4)) w =
  (Throw (by_value (invalid_argument
     "the given input must be an instance of SigmaANDProverInput")), w) /\
  SigmaANDProverComputation.computeFirstMsg p
    (Some (SigmaANDProverInput [SigmaDlogProverInput 16 4])) w =
  (Throw (by_value (invalid_argument
     "number of inputs is different from number of underlying provers.")), w).
Proof.
  intros provers p w.
  assert (Hnew : SigmaANDProverComputation.new provers 8 = Ret p) by reflexivity.
  assert (Hmax : size provers <= INT_MAX) by (vm_compute; discriminate).
  destruct (and_computeFirstMsg_refuses provers 8 p w Hnew Hmax) as [Hclass Hcount].
  split; [exact Hnew|]. split; [exact Hmax|]. split; [|split].
  - apply Hclass. intros inputs. discriminate.
  - apply Hclass. intros inputs. discriminate.
  - apply Hcount; [vm_compute; discriminate|simpl; discriminate].
Defined.

Lemma and_computeFirstMsg_collects_witness :
  let provers := [Dlog_prover G23 8 0; Dlog_prover G23 8 1] in
  let p := {| SigmaANDProverComputation.provers := provers;
              SigmaANDProverComputation.len := 2;
              SigmaANDProverComputation.t := 8;
              SigmaANDProverComputation.random := 0%nat |} in
  let inputs := [SigmaDlogProverInput 16 4; SigmaDlogProverInput 13 7] in
  let messages := [SigmaGroupElementMsg 9; SigmaGroupElementMsg 6] in
  let w : ProverWorld := (0%nat, []) in
  let w' : ProverWorld := (2%nat, [(1%nat, (9, 7)); (0%nat, (5, 4))]) in
  SigmaANDProverComputation.new provers 8 = Ret p /\
  size provers <= INT_MAX /\
  first_in_order provers inputs w messages w' /\
  SigmaANDProverComputation.computeFirstMsg p (Some (SigmaANDProverInput inputs)) w
  = (Ret (SigmaMultipleMsg messages), w') /\
  length messages = length provers.
Proof.
  intros provers p inputs messages w w'.
  assert (Hnew : SigmaANDProverComputation.new provers 8 = Ret p) by reflexivity.
  assert (Hmax : size provers <= INT_MAX) by (vm_compute; discriminate).
  assert (Hrun : first_in_order provers inputs w messages w').
  { apply first_next with (w1 := (1%nat, [(0%nat, (5, 4))])); [reflexivity|].
    apply first_next with (w1 := w'); [reflexivity|]. apply first_none. }
  split; [exact Hnew|]. split; [exact Hmax|]. split; [exact Hrun|].
  exact (and_computeFirstMsg_collects provers 8 p inputs w w' messages Hnew Hmax Hrun).
Defined.

(** A challenge of two bytes, where [t = 8] asks for one, is refused by the
    first prover. *)
Lemma and_computeSecondMsg_rethrows_witness :
  let failing := Dlog_prover G23 8 0 in
  let post := [Dlog_prover G23 8 1] in
  let p := {| SigmaANDProverComputation.provers := failing :: post;
              SigmaANDProverComputation.len := 2;
              SigmaANDProverComputation.t := 8;
              SigmaANDProverComputation.random := 0%nat |} in
  let w : ProverWorld := (2%nat, [(1%nat, (9, 7)); (0%nat, (5, 4))]) in
  let x := by_value (CheatAttemptException
             "the length of the given challenge is different from the soundness parameter") in
  SigmaANDProverComputation.provers p = [] ++ failing :: post /\
  second_in_order [x05; x05] [] w [] w /\
  SigmaProverComputation.computeSecondMsg failing [x05; x05] w = (Throw x, w) /\
  SigmaANDProverComputation.computeSecondMsg p [x05; x05] w = (Throw x, w).
Proof.
  intros failing post p w x.
  assert (Hp : SigmaANDProverComputation.provers p = [] ++ failing :: post) by reflexivity.
  assert (Hrun : second_in_order [x05; x05] ([] : list (SigmaProverComputation.object _))
                   w [] w) by apply second_none.
  assert (Hfail : SigmaProverComputation.computeSecondMsg failing [x05; x05] w
                  = (Throw x, w)) by reflexivity.
  split; [exact Hp|]. split; [exact Hrun|]. split; [exact Hfail|].
  exact (and_computeSecondMsg_rethrows [] post failing p [x05; x05] w w w [] x
           Hp Hrun Hfail).
Defined.

Lemma and_getSimulator_witness :
  let provers := [Dlog_prover G23 8 0; Dlog_prover G23 8 1] in
  let p := {| SigmaANDProverComputation.provers := provers;
              SigmaANDProverComputation.len := 2;
              SigmaANDProverComputation.t := 8;
              SigmaANDProverComputation.random := 0%nat |} in
  let simulators := SigmaProverComputation.getSimulator <$> provers in
  SigmaANDProverComputation.new provers 8 = Ret p /\
  Forall (fun sim => SigmaSimulator.getSoundnessParam sim = 8) simulators /\
  SigmaANDProverComputation_getSimulator p =
  Ret {| SigmaANDSimulator.simulators := simulators;
         SigmaANDSimulator.len := 2;
         SigmaANDSimulator.t := 8;
         SigmaANDSimulator.random := 0%nat |}.
Proof.
  intros provers p simulators.
  assert (Hnew : SigmaANDProverComputation.new provers 8 = Ret p) by reflexivity.
  assert (Hall : Forall (fun sim => SigmaSimulator.getSoundnessParam sim = 8) simulators)
    by (repeat constructor).
  split; [exact Hnew|]. split; [exact Hall|].
  exact (proj1 (and_getSimulator provers 8 p Hnew) Hall).
Defined.

Lemma and_honest_proof_is_accepted_witness :
  let provers := [Dlog_prover G23 8 0; Dlog_prover G23 8 1] in
  let verifiers := [Dlog_verifier G23 8; Dlog_verifier G23 8] in
  let p := {| SigmaANDProverComputation.provers := provers;
              SigmaANDProverComputation.len := 2;
              SigmaANDProverComputation.t := 8;
              SigmaANDProverComputation.random := 0%nat |} in
  let v := {| SigmaANDVerifierComputation.verifiers := verifiers;
              SigmaANDVerifierComputation.len := 2;
              SigmaANDVerifierComputation.t := 8;
              SigmaANDVerifierComputation.random := 0%nat |} in
  let inputs := [SigmaDlogProverInput 16 4; SigmaDlogProverInput 13 7] in
  let firstMessages := [SigmaGroupElementMsg 9; SigmaGroupElementMsg 6] in
  let secondMessages := [SigmaBIMsg 3; SigmaBIMsg 0] in
  let w0 : ProverWorld := (0%nat, []) in
  let w1 : ProverWorld := (2%nat, [(1%nat, (9, 7)); (0%nat, (5, 4))]) in
  let w2 : ProverWorld := (2%nat, []) in
  SigmaANDProverComputation.new provers 8 = Ret p /\
  SigmaANDVerifierComputation.new verifiers 8 = Ret v /\
  first_in_order provers inputs w0 firstMessages w1 /\
  second_in_order [x05] provers w1 secondMessages w2 /\
  SigmaANDProverComputation.computeFirstMsg p (Some (SigmaANDProverInput inputs)) w0
  = (Ret (SigmaMultipleMsg firstMessages), w1) /\
  SigmaANDProverComputation.computeSecondMsg p [x05] w1
  = (Ret (SigmaMultipleMsg secondMessages), w2) /\
  SigmaANDVerifierComputation.verify (SigmaANDVerifierComputation.sampleChallenge v)
    (Some (getCommonInput (SigmaANDProverInput inputs)))
    (Some (SigmaMultipleMsg firstMessages)) (Some (SigmaMultipleMsg secondMessages))
  = Ret true.
Proof.
  intros provers verifiers p v inputs firstMessages secondMessages w0 w1 w2.
  assert (Hp : SigmaANDProverComputation.new provers 8 = Ret p) by reflexivity.
  assert (Hv : SigmaANDVerifierComputation.new verifiers 8 = Ret v) by reflexivity.
  assert (Hmax : size provers <= INT_MAX) by (vm_compute; discriminate).
  assert (Hfirst : first_in_order provers inputs w0 firstMessages w1).
  { apply first_next with (w1 := (1%nat, [(0%nat, (5, 4))])); [reflexivity|].
    apply first_next with (w1 := w1); [reflexivity|]. apply first_none. }
  assert (Hsecond : second_in_order [x05] provers w1 secondMessages w2).
  { apply second_next with (w1 := (2%nat, [(1%nat, (9, 7))])); [reflexivity|].
    apply second_next with (w1 := w2); [reflexivity|]. apply second_none. }
  assert (Hacc : forall (i : nat) verifier input a z,
     verifiers !! i = Some verifier -> inputs !! i = Some input ->
     firstMessages !! i = Some a -> secondMessages !! i = Some z ->
     SigmaVerifierComputation.accepts verifier [x05]
       (Some (getCommonInput input)) (Some a) (Some z) = Ret true).
  { intros [|[|i]] verifier input a z [= <-] [= <-] [= <-] [= <-]; reflexivity. }
  split; [exact Hp|]. split; [exact Hv|]. split; [exact Hfirst|]. split; [exact Hsecond|].
  exact (and_honest_proof_is_accepted provers verifiers 8 p v inputs w0 w1 w2
           firstMessages secondMessages Hp Hv Hmax eq_refl Hfirst Hsecond Hacc).
Defined.

End MoreProverExamples.

Section MoreMessageExamples.
#[local] Existing Instance Zp_group.
#[local] Existing Instance tape_randomness.
#[local] Existing Instance netstring_framing.

Lemma DH_toString_tells_apart_witness :
  free_of ":" (ge_toString (9 : GroupElementSendableData)) = true /\
  toString (SigmaDHMsg 9 4) = toString (SigmaDHMsg 9 4) /\
  ge_toString (9 : GroupElementSendableData) = ge_toString (9 : GroupElementSendableData) /\
  ge_toString (4 : GroupElementSendableData) = ge_toString (4 : GroupElementSendableData).
Proof.
  assert (Hfree : free_of ":" (ge_toString (9 : GroupElementSendableData)) = true)
    by reflexivity.
  split; [exact Hfree|]. split; [reflexivity|].
  exact (DH_toString_tells_apart (9 : GroupElementSendableData) 4 9 4 Hfree Hfree eq_refl).
Defined.

Lemma sampled_challenge_passes_DH_checks_witness :
  let verifiers := [Dlog_verifier G23 8; Dlog_verifier G23 8] in
  let v := {| SigmaANDVerifierComputation.verifiers := verifiers;
              SigmaANDVerifierComputation.len := 2;
              SigmaANDVerifierComputation.t := 8;
              SigmaANDVerifierComputation.random := 0%nat |} in
  let verifier := SigmaVerifierComputation.setChallenge [x05] (Dlog_verifier G23 8) in
  RandomnessLaws /\
  SigmaANDVerifierComputation.new verifiers 8 = Ret v /\
  0 <= 8 <= INT_MAX /\
  verifier ∈ SigmaANDVerifierComputation.verifiers
               (SigmaANDVerifierComputation.sampleChallenge v) /\
  SigmaDHSimulator.checkChallengeLength 8
    (to_int (size (SigmaVerifierComputation.getChallenge verifier))) = true /\
  SigmaDHProverComputation.checkChallengeLength 8
    (to_int (size (SigmaVerifierComputation.getChallenge verifier))) = true.
Proof.
  intros verifiers v verifier.
  assert (Hnew : SigmaANDVerifierComputation.new verifiers 8 = Ret v) by reflexivity.
  assert (Ht : 0 <= 8 <= INT_MAX) by (vm_compute; split; discriminate).
  assert (Hin : verifier ∈ SigmaANDVerifierComputation.verifiers
                             (SigmaANDVerifierComputation.sampleChallenge v))
    by (rewrite sampleChallenge_verifiers; apply list_elem_of_here).
  destruct (sampled_challenge_passes_DH_checks (laws := tape_randomness_laws)
              verifiers 8 v verifier Hnew Ht Hin) as (Hsim & Hprover & _).
  split; [exact tape_randomness_laws|]. split; [exact Hnew|]. split; [exact Ht|].
  split; [exact Hin|]. split; [exact Hsim|exact Hprover].
Defined.

End MoreMessageExamples.
